(** * xmlfixer: the distractor engine of the question-bank curator

    A shallow embedding of the arithmetic core shared by
    [server/distractor-improver.py] (class [DistractorImprover], the
    single-question service) and
    [attached_assets/potion_improver_1752529835533.py] (class
    [PotionImprover], the batch driver), followed by the properties the
    specification states about them.

    Conventions of the embedding.
    - Python [int] is [Z]; [//] on integers is [Z.div] (both round towards
      minus infinity, the remainder taking the sign of the divisor).
    - Python [str] is [string]; the character classes of [re] and of the
      [str] methods are the ones they have on ASCII text.
    - [float('inf')] in the grade table is the constructor [Infinity].
    - An exception is a value [Raise e] of the type [result]; a
      [try ... except] is a match on it.
    - What [ElementTree] gives for a child or a text that may be missing
      is an [option]: [None] is Python's [None], and what the code does
      with it (most often, raise) is written out.
    - The iteration order of a Python [set], the draws of [random.choice]
      and the permutation of [random.shuffle] are read from a [world]
      record, so every behaviour of the program is the behaviour of the
      model in some world. *)

From Stdlib Require Import ZArith String Ascii List Lia.
From Stdlib Require Import DecimalString DecimalPos DecimalZ.
From stdpp Require Import base decidable option list sorting gmap sets strings.

Local Open Scope Z_scope.

(** ** Exceptions *)

Inductive exn : Type :=
  | IndexError (msg : string)
  | ZeroDivisionError (msg : string)
  | ValueError (msg : string)
  | TypeError (msg : string)
  | AttributeError (msg : string).

Inductive result (A : Type) : Type :=
  | Ok (a : A)
  | Raise (e : exn).
Arguments Ok {A} a.
Arguments Raise {A} e.

#[global] Instance result_ret : MRet result := fun A a => Ok a.
#[global] Instance result_bind : MBind result := fun A B f m =>
  match m with
  | Ok a => f a
  | Raise e => Raise e
  end.

(** [str(e)]. *)
Definition exn_message (e : exn) : string :=
  match e with
  | IndexError msg | ZeroDivisionError msg | ValueError msg | TypeError msg
  | AttributeError msg => msg
  end.

(** [l[i]] for a non-negative index. *)
Definition py_index {A} (l : list A) (i : nat) : result A :=
  match l !! i with
  | Some x => Ok x
  | None => Raise (IndexError "list index out of range")
  end.

(** [a // b]. *)
Definition py_floordiv (a b : Z) : result Z :=
  if decide (b = 0) then Raise (ZeroDivisionError "integer division or modulo by zero")
  else Ok (a / b).

(** [max(l)] and [min(l)]: [ValueError] on the empty list. *)
Definition py_max (l : list Z) : result Z :=
  match l with
  | [] => Raise (ValueError "max() arg is an empty sequence")
  | x :: l' => Ok (foldl Z.max x l')
  end.

Definition py_min (l : list Z) : result Z :=
  match l with
  | [] => Raise (ValueError "min() arg is an empty sequence")
  | x :: l' => Ok (foldl Z.min x l')
  end.

(** [sum(l)]. *)
Definition py_sum (l : list Z) : Z := foldl Z.add 0 l.

(** ** Characters and strings *)

Definition code (c : ascii) : N := N_of_ascii c.

Definition in_range (lo hi : N) (c : ascii) : bool :=
  ((lo <=? code c) && (code c <=? hi))%N.

Definition is_digit (c : ascii) : bool := in_range 48 57 c.
Definition is_upper (c : ascii) : bool := in_range 65 90 c.
Definition is_lower (c : ascii) : bool := in_range 97 122 c.

(** [\w]: letters, digits and the underscore. *)
Definition is_word (c : ascii) : bool :=
  is_digit c || is_upper c || is_lower c || (code c =? 95)%N.

(** [\s] and [str.isspace]: tab to carriage return, the four separators
    1C-1F, and the space. *)
Definition is_space (c : ascii) : bool :=
  in_range 9 13 c || in_range 28 31 c || (code c =? 32)%N.

Definition lower_char (c : ascii) : ascii :=
  if is_upper c then ascii_of_N (code c + 32) else c.

(** [s.lower()]. *)
Fixpoint lower (s : string) : string :=
  match s with
  | EmptyString => EmptyString
  | String c s' => String (lower_char c) (lower s')
  end.

(** [needle in hay]. *)
Fixpoint contains (needle hay : string) : bool :=
  String.prefix needle hay ||
  match hay with
  | EmptyString => false
  | String _ hay' => contains needle hay'
  end.

(** [any(word in text for word in words)]. *)
Definition any_in (words : list string) (text : string) : bool :=
  existsb (fun word => contains word text) words.

(** The maximal runs of characters satisfying [p], in reading order.
    [cur] holds the run being read, last character first. *)
Definition flush (cur : list ascii) : list string :=
  match cur with
  | [] => []
  | _ => [string_of_list_ascii (rev cur)]
  end.

Fixpoint runs_go (p : ascii -> bool) (cur : list ascii) (s : string) : list string :=
  match s with
  | EmptyString => flush cur
  | String c s' =>
      if p c then runs_go p (c :: cur) s'
      else flush cur ++ runs_go p [] s'
  end.

Definition runs (p : ascii -> bool) (s : string) : list string := runs_go p [] s.

Fixpoint all_chars (p : ascii -> bool) (s : string) : bool :=
  match s with
  | EmptyString => true
  | String c s' => p c && all_chars p s'
  end.

(** [int(s)] on a run of decimal digits. *)
Definition digit_value (c : ascii) : Z := Z.of_N (code c) - 48.

Fixpoint int_of_digits_go (acc : Z) (s : string) : Z :=
  match s with
  | EmptyString => acc
  | String c s' => int_of_digits_go (10 * acc + digit_value c) s'
  end.

Definition int_of_digits (s : string) : Z := int_of_digits_go 0 s.

(** [str(z)]. *)
Definition str_of_Z (z : Z) : string := NilZero.string_of_int (Z.to_int z).

(** [re.findall(r'\b\w+\b', text)]: the maximal runs of word characters. *)
Definition word_runs (text : string) : list string := runs is_word text.

(** [re.findall(r'\d+', text)]: the maximal runs of digits. *)
Definition digit_runs (text : string) : list string := runs is_digit text.

(** [s.split()]: the maximal runs of characters that are not white space. *)
Definition split (s : string) : list string := runs (fun c => negb (is_space c)) s.

(** [extract_numbers]: [int(m) for m in re.findall(r'\b\d+\b', text)].
    A digit is a word character, so [\b] before the first digit of a match
    asks for a non-word character (or the start) on its left, and [\b]
    after the last one for a non-word character (or the end) on its right:
    the matches are the maximal runs of word characters made of digits
    only. *)
Definition extract_numbers (text : string) : list Z :=
  int_of_digits <$> filter (fun w => all_chars is_digit w = true) (word_runs text).

(** [count_words]: [len(re.findall(r'\b\w+\b', text))]. *)
Definition count_words (text : string) : nat := length (word_runs text).

(** ** Grade limits *)

Inductive limit : Type :=
  | Finite (n : Z)
  | Infinity.

(** [self.grade_limits]. *)
Definition grade_limits : gmap Z limit :=
  {[ 1 := Finite 20; 2 := Finite 100; 3 := Finite 1000;
     4 := Finite 10000; 5 := Finite 100000; 6 := Infinity ]}.

(** [self.grade_limits.get(grade, float('inf'))]. *)
Definition grade_limit (grade : Z) : limit :=
  default Infinity (grade_limits !! grade).

(** [d <= limit]. *)
Definition le_limit (d : Z) (l : limit) : Prop :=
  match l with
  | Finite n => d <= n
  | Infinity => True
  end.

#[global] Instance le_limit_dec d l : Decision (le_limit d l).
Proof. destruct l; simpl; apply _. Defined.

(** ** The operation classifier

    [detect_operation_and_calculate] is the same text in both files (the
    batch file writes the [or]/[and] test of the subtraction branch
    without parentheses; [and] binds tighter, so the test is the same). *)

Definition addition_words : list string :=
  ["add"; "adds"; "plus"; "total"; "together"; "sum"; "altogether"; "combined"; "more"].
Definition subtraction_words : list string :=
  ["subtract"; "minus"; "left"; "remaining"; "difference"; "fewer"; "less"; "need"; "needs"].
Definition multiplication_words : list string :=
  ["multiply"; "times"; "each"; "per"; "groups of"; "needed"; "total"].
Definition division_words : list string :=
  ["divide"; "split"; "equally"; "share"; "groups"; "each group"; "evenly"; "among"; "brew"; "make"].

Definition detect_operation_and_calculate
    (question_text : string) (numbers : list Z) : result (option Z * string) :=
  let text_lower := lower question_text in
  if decide (length numbers < 2)%nat then Ok (None, "insufficient_numbers")
  else if any_in addition_words text_lower then
    Ok (Some (py_sum numbers), "addition")
  else if any_in subtraction_words text_lower then
    if contains "how many more" text_lower
       || (contains "how many" text_lower && contains "need" text_lower)
    then
      hi ← py_max numbers; lo ← py_min numbers;
      Ok (Some (hi - lo), "subtraction")
    else
      n0 ← py_index numbers 0; n1 ← py_index numbers 1;
      Ok (Some (n0 - n1), "subtraction")
  else if any_in multiplication_words text_lower then
    if contains "per" text_lower || contains "each" text_lower then
      n0 ← py_index numbers 0; n1 ← py_index numbers 1;
      Ok (Some (n0 * n1), "multiplication")
    else
      n0 ← py_index numbers 0; n1 ← py_index numbers 1;
      Ok (Some (n0 * n1), "multiplication")
  else if any_in division_words text_lower then
    n1 ← py_index numbers 1;
    if decide (n1 ≠ 0) then
      n0 ← py_index numbers 0; n1' ← py_index numbers 1;
      q ← py_floordiv n0 n1';
      Ok (Some q, "division")
    else Ok (None, "division_by_zero")
  else Ok (None, "operation_unclear").

(** ** The math validator (batch file) *)

(** [str(l)] for a list of integers: [[15, 9]]. *)
Fixpoint join (sep : string) (l : list string) : string :=
  match l with
  | [] => ""
  | [x] => x
  | x :: l' => x +:+ sep +:+ join sep l'
  end.

Definition str_of_list (l : list Z) : string :=
  "[" +:+ join ", " (str_of_Z <$> l) +:+ "]".

(** A function of [re] on the text of an XML element, which
    [ElementTree] gives as [None] when the element is empty: [re.findall]
    raises [TypeError] on it. *)
Definition re_on {A} (f : string -> A) (text : option string) : result A :=
  match text with
  | Some text => Ok (f text)
  | None => Raise (TypeError "expected string or bytes-like object")
  end.

(** The classifier on such a text: [question_text.lower()] comes first. *)
Definition detect_operation_and_calculate_on (question_text : option string)
    (numbers : list Z) : result (option Z * string) :=
  match question_text with
  | Some text => detect_operation_and_calculate text numbers
  | None => Raise (AttributeError "'NoneType' object has no attribute 'lower'")
  end.

(** The body of the [try]. The question text and the correct answer are
    element texts; [choices] is not used. *)
Definition validate_math_comprehensive_body
    (question_text : option string) (choices : list (option string))
    (correct_answer : option string) : result (bool * string) :=
  numbers ← re_on extract_numbers question_text;
  '(expected, operation) ← detect_operation_and_calculate_on question_text numbers;
  match expected with
  | None => Ok (true, "Cannot validate: " +:+ operation)
  | Some expected =>
      answer_numbers ← re_on extract_numbers correct_answer;
      if decide (answer_numbers = []) then
        Ok (true, "No number in correct answer - assuming valid")
      else
        a ← py_index answer_numbers 0;
        if decide (a = expected) then Ok (true, "Math correct: " +:+ operation)
        else
          a' ← py_index answer_numbers 0;
          Ok (false, "Math error: " +:+ operation +:+ " of " +:+ str_of_list numbers
                     +:+ " should be " +:+ str_of_Z expected
                     +:+ ", got " +:+ str_of_Z a')
  end.

(** The [except] branch passes the question, with the message of the
    exception in the reason. *)
Definition validate_math_comprehensive
    (question_text : option string) (choices : list (option string))
    (correct_answer : option string) : bool * string :=
  match validate_math_comprehensive_body question_text choices correct_answer with
  | Ok r => r
  | Raise e => (true, "Validation error - assuming valid: " +:+ exn_message e)
  end.

(** ** The triviality detector (batch file)

    A choice is the text of an XML element, which [ElementTree] gives as
    [None] when the element is empty: [re.findall] raises [TypeError] on
    it. *)

Definition findall_digits (choice : option string) : result (list string) :=
  match choice with
  | Some text => Ok (digit_runs text)
  | None => Raise (TypeError "expected string or bytes-like object")
  end.

Fixpoint numeric_choices (choices : list (option string)) : result (list Z) :=
  match choices with
  | [] => Ok []
  | choice :: choices' =>
      nums ← findall_digits choice;
      match nums with
      | [] => numeric_choices choices'
      | n :: _ => rest ← numeric_choices choices'; Ok (int_of_digits n :: rest)
      end
  end.

(** [sorted(l)] on integers. *)
Definition py_sorted (l : list Z) : list Z := merge_sort Z.le l.

(** [[f(i) for i in range(n)]]. *)
Fixpoint for_range {A} (f : nat -> result A) (start count : nat) : result (list A) :=
  match count with
  | O => Ok []
  | S count' => x ← f start; xs ← for_range f (S start) count'; Ok (x :: xs)
  end.

(** The difference the comprehension computes at index [i]. *)
Definition gap (l : list Z) (i : nat) : Z := default 0 (l !! S i) - default 0 (l !! i).

Definition differences (sorted_choices : list Z) : result (list Z) :=
  for_range
    (fun i => hi ← py_index sorted_choices (S i); lo ← py_index sorted_choices i; Ok (hi - lo))
    0 (length sorted_choices - 1).

Definition has_trivial_distractors_body (choices : list (option string)) : result bool :=
  numeric ← numeric_choices choices;
  if decide (3 <= length numeric)%nat then
    let sorted_choices := py_sorted numeric in
    diffs ← differences sorted_choices;
    if forallb (fun diff => diff <=? 2) diffs then
      hi ← py_max sorted_choices; lo ← py_min sorted_choices;
      if decide (hi - lo <= 6) then Ok true else Ok false
    else Ok false
  else Ok false.

Definition has_trivial_distractors (choices : list (option string)) : bool :=
  match has_trivial_distractors_body choices with
  | Ok b => b
  | Raise _ => false
  end.

(** ** The distractor synthesizer *)

(** What the program takes from outside during one call: the indices drawn
    by [random.choice], the order in which a set is iterated, and the
    permutation [random.shuffle] applies. *)
Record world : Type := World {
  draws : list nat;
  set_iteration : gset Z -> list Z;
  shuffled : list string -> list string
}.

(** A world is admissible when iterating a set visits each member once
    and shuffling permutes. *)
Definition admissible (w : world) : Prop :=
  (forall s : gset Z, set_iteration w s ≡ₚ elements s) /\
  (forall l : list string, shuffled w l ≡ₚ l).

(** The result of a call that contains the backfill loop: [Returns a], or
    [Spinning] when the draws of the world are used up and the loop
    condition still holds. *)
Inductive outcome (A : Type) : Type :=
  | Returns (a : A)
  | Spinning.
Arguments Returns {A} a.
Arguments Spinning {A}.

Definition offsets : list Z := [-5; -3; -2; 2; 3; 5; 7].

(** [random.choice(seq)] for the drawn index [i]. *)
Definition random_choice (i : nat) (seq : list Z) : Z :=
  seq !!! (i `mod` length seq)%nat.

(** [d > 0 and d <= limit]. *)
Definition in_bounds (lim : limit) (d : Z) : Prop := 0 < d /\ le_limit d lim.

#[global] Instance in_bounds_dec lim d : Decision (in_bounds lim d).
Proof. unfold in_bounds; apply _. Defined.

(** The test of the backfill loop:
    [candidate > 0 and candidate != correct and candidate <= limit]. *)
Definition acceptable (correct : Z) (lim : limit) (candidate : Z) : Prop :=
  0 < candidate /\ candidate ≠ correct /\ le_limit candidate lim.

#[global] Instance acceptable_dec correct lim candidate :
  Decision (acceptable correct lim candidate).
Proof. unfold acceptable; apply _. Defined.

(** [while len(distractors) < 3: ...]. *)
Fixpoint backfill (rnd : list nat) (correct : Z) (lim : limit)
    (distractors : gset Z) : outcome (gset Z) :=
  if decide (size distractors < 3)%nat then
    match rnd with
    | [] => Spinning
    | i :: rnd' =>
        let offset := random_choice i offsets in
        let candidate := correct + offset in
        if decide (acceptable correct lim candidate)
        then backfill rnd' correct lim ({[candidate]} ∪ distractors)
        else backfill rnd' correct lim distractors
    end
  else Returns distractors.

(** The general error patterns, added for every operation. *)
Definition general_patterns (correct : Z) : list Z :=
  [correct + 2; correct - 2; correct * 2]
  ++ (if decide (2 < correct) then [correct / 2] else []).

(** [distractors.discard(correct)] and the set comprehension after it. *)
Definition remove_invalid (correct : Z) (lim : limit) (distractors : gset Z) : gset Z :=
  filter (in_bounds lim) (distractors ∖ {[correct]}).

(** The selection of the final three: the members of [distractor_list]
    found in [wrong_operations] first, then the others. *)
Definition select_final (wrong_operations : list (option Z)) (distractor_list : list Z)
    : list Z :=
  let priority_distractors :=
    filter (fun d => Some d ∈ wrong_operations) distractor_list in
  let final_distractors := take 3 priority_distractors in
  let remaining_needed := (3 - Z.of_nat (length final_distractors)) in
  if decide (0 < remaining_needed) then
    let other_distractors :=
      filter (fun d => d ∉ priority_distractors) distractor_list in
    final_distractors ++ take (Z.to_nat remaining_needed) other_distractors
  else final_distractors.

(** The operation reported by the classifier; a raised exception leaves
    the [try] block of the caller. *)
Definition classified (question_text : string) (numbers : list Z) : result string :=
  '(_, operation) ← detect_operation_and_calculate question_text numbers;
  Ok operation.

(** [f"{d}{unit}"]. *)
Definition format_choice (unit : string) (d : Z) : string := str_of_Z d +:+ unit.

(** *** The single-question service: [DistractorImprover] *)

Module Server.

(** The error patterns of the detected operation, in the order the
    source adds them to the set. *)
Definition error_patterns (operation : string) (n0 n1 correct : Z) : list Z :=
  if decide (operation = "addition") then
    [Z.abs (n0 - n1)]
    ++ (if decide (n1 ≠ 0) then
          [n0 * n1] ++ (if decide (n1 <= n0) then [n0 / n1] else [])
        else [])
    ++ [correct + 1; correct - 1; n0; n1]
  else if decide (operation = "subtraction") then
    [n0 + n1]
    ++ (if decide (n1 ≠ 0) then
          [n0 * n1] ++ (if decide (n1 <= n0) then [n0 / n1] else [])
        else [])
    ++ [n1 - n0; correct + 1; correct - 1]
  else if decide (operation = "multiplication") then
    [n0 + n1; Z.abs (n0 - n1)]
    ++ (if decide (n1 ≠ 0) then [n0 / n1] else [])
    ++ [correct + n0; correct - n0; n0]
  else if decide (operation = "division") then
    [n0 + n1; Z.abs (n0 - n1); n0 * n1; n0; n1; correct + 1]
  else [].

(** The set [distractors] before [discard] and the filter. *)
Definition candidate_pool (operation : string) (numbers : list Z) (correct : Z) : gset Z :=
  match numbers with
  | n0 :: n1 :: _ =>
      list_to_set (error_patterns operation n0 n1 correct ++ general_patterns correct)
  | _ => ∅
  end.

(** The list a distractor is looked up in to be given priority. *)
Definition wrong_operations (n0 n1 : Z) : list (option Z) :=
  [ Some (n0 + n1); Some (Z.abs (n0 - n1));
    (if decide (n1 ≠ 0) then Some (n0 * n1) else None);
    (if decide (n1 ≠ 0 /\ n1 <= n0) then Some (n0 / n1) else None) ].

(** The values chosen, before they are formatted: [None] when the
    answer holds no number or the classifier raised. Inside the [try]
    block every index is under the length test and every division under
    the test of the divisor, so the match on the numbers stands for the
    indexing and no other statement can raise. *)
Definition final_distractors (w : world) (question_text correct_answer : string)
    (grade : Z) : outcome (option (list Z)) :=
  let numbers := extract_numbers question_text in
  let correct_nums := extract_numbers correct_answer in
  match correct_nums with
  | [] => Returns None
  | correct :: _ =>
      let lim := grade_limit grade in
      match classified question_text numbers with
      | Raise _ => Returns None
      | Ok operation =>
          let distractors :=
            remove_invalid correct lim (candidate_pool operation numbers correct) in
          match backfill (draws w) correct lim distractors with
          | Spinning => Spinning
          | Returns distractors =>
              let distractor_list := set_iteration w distractors in
              Returns (Some
                match numbers with
                | n0 :: n1 :: _ => select_final (wrong_operations n0 n1) distractor_list
                | _ => take 3 distractor_list
                end)
          end
      end
  end.

Definition stop_words : list string :=
  ["crystal"; "vials"; "phoenix"; "healing"; "the"; "a"; "an"; "is"; "are"].

(** [word.isdigit()]. *)
Definition isdigit (word : string) : bool :=
  negb (String.eqb word "") && all_chars is_digit word.

(** The unit: the first word of the answer that is not a number, not a
    stop word and longer than two characters. *)
Fixpoint first_unit (words : list string) : string :=
  match words with
  | [] => ""
  | word :: words' =>
      if negb (isdigit word) && bool_decide (word ∉ stop_words)
         && bool_decide (2 < String.length word)%nat
      then " " +:+ lower word
      else first_unit words'
  end.

Definition generate_smart_distractors (w : world)
    (question_text correct_answer : string) (grade : Z)
    : outcome (option (list string)) :=
  match final_distractors w question_text correct_answer grade with
  | Spinning => Spinning
  | Returns None => Returns None
  | Returns (Some final) =>
      let unit := first_unit (split correct_answer) in
      Returns (Some (format_choice unit <$> final))
  end.

End Server.

(** *** The batch driver: [PotionImprover] *)

Module Potion.

Definition error_patterns (operation : string) (n0 n1 correct : Z) : list Z :=
  if decide (operation = "addition") then
    [Z.abs (n0 - n1)]
    ++ (if decide (n1 ≠ 0) then [n0 * n1; n0 / n1] else [])
    ++ [correct + 1; correct - 1; n0; n1]
  else if decide (operation = "subtraction") then
    [n0 + n1]
    ++ (if decide (n1 ≠ 0) then [n0 * n1; n0 / n1] else [])
    ++ [n1 - n0; correct + 1; correct - 1]
  else if decide (operation = "multiplication") then
    [n0 + n1; Z.abs (n0 - n1)]
    ++ (if decide (n1 ≠ 0) then [n0 / n1] else [])
    ++ [correct + n0; correct - n0; n0]
  else if decide (operation = "division") then
    [n0 + n1; Z.abs (n0 - n1); n0 * n1; n0; n1; correct + 1]
  else [].

Definition candidate_pool (operation : string) (numbers : list Z) (correct : Z) : gset Z :=
  match numbers with
  | n0 :: n1 :: _ =>
      list_to_set (error_patterns operation n0 n1 correct ++ general_patterns correct)
  | _ => ∅
  end.

Definition wrong_operations (n0 n1 : Z) : list (option Z) :=
  [ Some (n0 + n1); Some (Z.abs (n0 - n1));
    (if decide (n1 ≠ 0) then Some (n0 * n1) else None);
    (if decide (n1 ≠ 0) then Some (n0 / n1) else None) ].

Definition final_distractors (w : world) (question_text correct_answer : string)
    (grade : Z) : outcome (option (list Z)) :=
  let numbers := extract_numbers question_text in
  let correct_nums := extract_numbers correct_answer in
  match correct_nums with
  | [] => Returns None
  | correct :: _ =>
      let lim := grade_limit grade in
      match classified question_text numbers with
      | Raise _ => Returns None
      | Ok operation =>
          let distractors :=
            remove_invalid correct lim (candidate_pool operation numbers correct) in
          match backfill (draws w) correct lim distractors with
          | Spinning => Spinning
          | Returns distractors =>
              let distractor_list := set_iteration w distractors in
              Returns (Some
                match numbers with
                | n0 :: n1 :: _ => select_final (wrong_operations n0 n1) distractor_list
                | _ => take 3 distractor_list
                end)
          end
      end
  end.

Definition unit_patterns : list string :=
  ["grams"; "meters"; "feathers"; "potions"; "bottles"; "ingredients"; "drops"; "parts"].

(** The unit: the first pattern found in the lowercased answer. *)
Fixpoint first_unit (patterns : list string) (answer_lower : string) : string :=
  match patterns with
  | [] => ""
  | pattern :: patterns' =>
      if contains pattern answer_lower then " " +:+ pattern
      else first_unit patterns' answer_lower
  end.

(** The choices returned: the correct value and the three distractors,
    shuffled. *)
Definition generate_smart_distractors (w : world)
    (question_text correct_answer : string) (grade : Z)
    : outcome (option (list string)) :=
  match final_distractors w question_text correct_answer grade with
  | Spinning => Spinning
  | Returns None => Returns None
  | Returns (Some final) =>
      let unit := first_unit unit_patterns (lower correct_answer) in
      match extract_numbers correct_answer with
      | correct :: _ =>
          Returns (Some (shuffled w (format_choice unit correct :: (format_choice unit <$> final))))
      | [] => Returns None
      end
  end.

End Potion.

(** ** Full-question assembly (batch file) *)

(** [s.lstrip()], [s.rstrip()], [s.strip()]. *)
Fixpoint lstrip (s : string) : string :=
  match s with
  | EmptyString => EmptyString
  | String c s' => if is_space c then lstrip s' else s
  end.

Fixpoint rstrip (s : string) : string :=
  match s with
  | EmptyString => EmptyString
  | String c s' =>
      match rstrip s' with
      | EmptyString => if is_space c then EmptyString else String c EmptyString
      | r => String c r
      end
  end.

Definition strip (s : string) : string := rstrip (lstrip s).

(** A text that [lstrip] leaves as it is. *)
Definition no_leading_space (s : string) : Prop :=
  match s with
  | String c _ => is_space c = false
  | EmptyString => True
  end.

(** One [[A-D][:.]?\s*] at the start of [s]: what follows it, when it
    matches. Each piece is greedy, and what comes after it in the pattern
    is optional, so the greedy match is the match. *)
Definition is_label_letter (c : ascii) : bool := in_range 65 68 c.
Definition is_label_mark (c : ascii) : bool := ((code c =? 58) || (code c =? 46))%N.

Definition drop_label (s : string) : option string :=
  match s with
  | String c s' =>
      if is_label_letter c then
        Some (lstrip match s' with
                     | String m s'' => if is_label_mark m then s'' else s'
                     | EmptyString => s'
                     end)
      else None
  | EmptyString => None
  end.

(** [re.sub(pattern, '', s)] for the pattern of [clean_choice_text]: the
    start of the text, one label [[A-D][:.]?\s*] and an optional second
    one. *)
Definition drop_prefixes (s : string) : string :=
  match drop_label s with
  | None => s
  | Some s1 => default s1 (drop_label s1)
  end.

Definition clean_choice_text (choice_text : string) : string :=
  strip (drop_prefixes (strip choice_text)).

(** [s.split(sep)] for a separator of one character. *)
Fixpoint split_on_go (sep : ascii) (cur : list ascii) (s : string) : list string :=
  match s with
  | EmptyString => [string_of_list_ascii (rev cur)]
  | String c s' =>
      if Ascii.eqb c sep then string_of_list_ascii (rev cur) :: split_on_go sep [] s'
      else split_on_go sep (c :: cur) s'
  end.

Definition split_on (sep : ascii) (s : string) : list string := split_on_go sep [] s.

(** [int(s)] on text: white space around, an optional sign, and decimal
    digits that single underscores may separate. *)
Fixpoint digits_and_underscores (after_digit : bool) (s : string) : option string :=
  match s with
  | EmptyString => if after_digit then Some EmptyString else None
  | String c s' =>
      if is_digit c then String c <$> digits_and_underscores true s'
      else if (code c =? 95)%N && after_digit then digits_and_underscores false s'
      else None
  end.

Definition py_int (s : string) : result Z :=
  let body := strip s in
  let '(negative, body) :=
    match body with
    | String "+"%char r => (false, r)
    | String "-"%char r => (true, r)
    | _ => (false, body)
    end in
  match digits_and_underscores false body with
  | Some ds => Ok (if negative : bool then - int_of_digits ds else int_of_digits ds)
  | None => Raise (ValueError ("invalid literal for int() with base 10: '" +:+ s +:+ "'"))
  end.

(** [sorted(l)] on strings. *)
Definition py_sorted_str (l : list string) : list string := merge_sort String.le l.

(** *** What [improve_question] reads

    The [question] element as [ElementTree] presents it: [get('id')] is
    [None] when the attribute is missing; [find(tag)] is [None] when the
    element has no such child, and the [text] of a child is [None] when
    the child is empty. A child is written as its text. *)
Record question_element : Type := QuestionElement {
  attr_id : option string;
  child_grade : option (option string);
  child_domain : option (option string);
  child_standard : option (option string);
  child_questionText : option (option string);
  child_correctAnswer : option (option string);
  child_choices : option (list (option string));
  child_explanation : option (option string);
  child_theme : option (option string)
}.

(** The local variables of [improve_question] once the element is read. *)
Record question : Type := Question {
  question_id : option string;
  grade : Z;
  domain : option string;
  standard : option string;
  question_text : option string;
  correct_answer : option string;
  choices : list (option string);
  explanation : option string;
  theme : option string
}.

(** The element [improve_question] builds. [ElementTree] stores what it
    is given, so an attribute or a text that comes from the question can
    be [None]; the texts of the choices and of the answer come out of
    [clean_choice_text]. *)
Record new_question : Type := NewQuestion {
  new_id : option string;
  new_grade : string;
  new_domain : option string;
  new_standard : option string;
  new_theme : option string;
  new_status : string;
  stem : option string;
  new_choices : list (string * string);
  answer_key : string;
  answer_text : string;
  new_explanation : option string;
  metadata_theme : option string;
  metadata_tier : string;
  metadata_created : string
}.

(** [question_elem.find(tag).text]. *)
Definition find_text (child : option (option string)) : result (option string) :=
  match child with
  | Some text => Ok text
  | None => Raise (AttributeError "'NoneType' object has no attribute 'text'")
  end.

(** [int(text)] on an element text. *)
Definition py_int_on (text : option string) : result Z :=
  match text with
  | Some s => py_int s
  | None =>
      Raise (TypeError
        "int() argument must be a string, a bytes-like object or a real number, not 'NoneType'")
  end.

(** [[choice.text for choice in question_elem.find('choices').findall('choice')]]. *)
Definition find_choices (child : option (list (option string)))
    : result (list (option string)) :=
  match child with
  | Some texts => Ok texts
  | None => Raise (AttributeError "'NoneType' object has no attribute 'findall'")
  end.

(** The reads at the head of the [try], in their order. *)
Definition read_question (question_elem : question_element) : result question :=
  grade_text ← find_text (child_grade question_elem);
  grade ← py_int_on grade_text;
  domain ← find_text (child_domain question_elem);
  standard ← find_text (child_standard question_elem);
  question_text ← find_text (child_questionText question_elem);
  correct_answer ← find_text (child_correctAnswer question_elem);
  choices ← find_choices (child_choices question_elem);
  explanation ← find_text (child_explanation question_elem);
  theme ← find_text (child_theme question_elem);
  Ok {| question_id := attr_id question_elem;
        grade := grade;
        domain := domain;
        standard := standard;
        question_text := question_text;
        correct_answer := correct_answer;
        choices := choices;
        explanation := explanation;
        theme := theme |}.

Definition valid_domains : gmap Z (list string) :=
  {[ 1 := ["OA"; "NBT"; "MD"; "G"]; 2 := ["OA"; "NBT"; "MD"; "G"];
     3 := ["OA"; "NBT"; "NF"; "MD"; "G"]; 4 := ["OA"; "NBT"; "NF"; "MD"; "G"];
     5 := ["OA"; "NBT"; "NF"; "MD"; "G"]; 6 := ["RP"; "EE"; "G"; "SP"; "NS"] ]}.

Definition choice_labels : list string := ["A"; "B"; "C"; "D"].

(** [any(num > limit for num in numbers)]. *)
Definition exceeds_limit (lim : limit) (numbers : list Z) : bool :=
  existsb (fun num => bool_decide (¬ le_limit num lim)) numbers.

(** *** The hash of a question *)

(** The element texts when every one of them is a text. *)
Fixpoint all_texts (l : list (option string)) : option (list string) :=
  match l with
  | [] => Some []
  | Some text :: l' => cons text <$> all_texts l'
  | None :: _ => None
  end.

(** [type(x).__name__] for an element text. *)
Definition type_name (text : option string) : string :=
  match text with
  | Some _ => "str"
  | None => "NoneType"
  end.

(** [sorted(l)] on element texts. A list of fewer than two elements is
    returned without a comparison. Otherwise every element is compared,
    and a [None] cannot be: [list.sort] first compares [l[1] < l[0]], and
    from then on an element enters its first comparison as the left
    operand, against an element compared before; so the comparison that
    raises has the first [None] of the list on its left and a text on its
    right, unless that [None] is [l[0]]. *)
Definition py_sorted_texts (l : list (option string)) : result (list (option string)) :=
  match l with
  | first :: second :: _ =>
      match all_texts l with
      | Some texts => Ok (Some <$> py_sorted_str texts)
      | None =>
          let '(lhs, rhs) :=
            match first with
            | None => (type_name second, "NoneType")
            | Some _ => ("NoneType", "str")
            end in
          Raise (TypeError ("'<' not supported between instances of '" +:+ lhs
                            +:+ "' and '" +:+ rhs +:+ "'"))
      end
  | _ => Ok l
  end.

(** [sep.join(l)] on element texts. *)
Definition py_join (sep : string) (l : list (option string)) : result string :=
  match list_find (fun text => text = None) l with
  | Some (i, _) =>
      Raise (TypeError ("sequence item " +:+ str_of_Z (Z.of_nat i)
                        +:+ ": expected str instance, NoneType found"))
  | None => Ok (join sep (omap id l))
  end.

(** [text + s] on an element text. *)
Definition py_add (text : option string) (s : string) : result string :=
  match text with
  | Some text => Ok (text +:+ s)
  | None => Raise (TypeError "unsupported operand type(s) for +: 'NoneType' and 'str'")
  end.

(** [str(text)] inside an f-string. *)
Definition py_str (text : option string) : string := default "None" text.

(** [clean_choice_text] on an element text: [choice_text.strip()]. *)
Definition clean_choice_text_on (choice_text : option string) : result string :=
  match choice_text with
  | Some text => Ok (clean_choice_text text)
  | None => Raise (AttributeError "'NoneType' object has no attribute 'strip'")
  end.

(** [standard.split('.')]. *)
Definition split_on_dot (standard : option string) : result (list string) :=
  match standard with
  | Some text => Ok (split_on "."%char text)
  | None => Raise (AttributeError "'NoneType' object has no attribute 'split'")
  end.

(** [[f(x) for x in l]] for an [f] that can raise. *)
Fixpoint comprehension {A B} (f : A -> result B) (l : list A) : result (list B) :=
  match l with
  | [] => Ok []
  | x :: l' => y ← f x; ys ← comprehension f l'; Ok (y :: ys)
  end.

(** [generate_smart_distractors] of the batch file on element texts:
    [extract_numbers] raises on [None], on the first two lines of the
    [try] of the function, which answers [None] to any exception. *)
Definition generate_smart_distractors_on (w : world)
    (question_text correct_answer : option string) (grade : Z)
    : outcome (option (list string)) :=
  match question_text, correct_answer with
  | Some question_text, Some correct_answer =>
      Potion.generate_smart_distractors w question_text correct_answer grade
  | _, _ => Returns None
  end.

Section ImproveQuestion.

(** [hashlib.md5(b).hexdigest()], from the Python library. *)
Variable md5_hexdigest : string -> string.

Definition create_question_hash (question_text : option string)
    (choices : list (option string)) : result string :=
  content ← py_add question_text "|";
  sorted_choices ← py_sorted_texts choices;
  joined ← py_join "|" sorted_choices;
  Ok (md5_hexdigest (content +:+ joined)).

(** Check 1, inside its own [try]: a reason to delete, or nothing. *)
Definition standard_alignment_body (q : question) : result (option string) :=
  parts ← split_on_dot (standard q);
  part0 ← py_index parts 0;
  standard_grade ← py_int part0;
  standard_domain ← py_index parts 1;
  if decide (standard_grade ≠ grade q \/ Some standard_domain ≠ domain q) then
    Ok (Some "Invalid standard alignment")
  else if decide (domain q ∉ Some <$> default [] (valid_domains !! grade q)) then
    Ok (Some ("Invalid domain " +:+ py_str (domain q)
              +:+ " for grade " +:+ str_of_Z (grade q)))
  else Ok None.

Definition standard_alignment (q : question) : option string :=
  match standard_alignment_body q with
  | Ok r => r
  | Raise _ => Some "Invalid standard format"
  end.

(** Checks 1 to 4: the reason of the first that fails. *)
Definition validation_checks (q : question) : result (option string) :=
  match standard_alignment q with
  | Some reason => Ok (Some reason)
  | None =>
      numbers ← re_on extract_numbers (question_text q);
      let lim := grade_limit (grade q) in
      if exceeds_limit lim numbers then
        Ok (Some ("Numbers exceed grade " +:+ str_of_Z (grade q) +:+ " limits"))
      else
        words ← re_on count_words (question_text q);
        if decide (30 < words)%nat then Ok (Some "Question too long")
        else
          let '(math_valid, math_reason) :=
            validate_math_comprehensive (question_text q) (choices q) (correct_answer q) in
          if math_valid then Ok None
          else Ok (Some ("Mathematical error: " +:+ math_reason))
  end.

(** The improvement phase: the choices kept or regenerated. *)
Definition improved_choices (w : world) (q : question) : outcome (list (option string)) :=
  if has_trivial_distractors (choices q) then
    match generate_smart_distractors_on w (question_text q) (correct_answer q) (grade q) with
    | Spinning => Spinning
    | Returns (Some (c :: cs)) => Returns (Some <$> c :: cs)
    | Returns _ => Returns (choices q)
    end
  else Returns (choices q).

(** The loop over [enumerate(cleaned_choices)]: the [choice] elements
    built so far and [correct_key]. Each turn takes its label, then
    cleans the correct answer again. *)
Fixpoint label_choices (i : nat) (cleaned_choices : list string)
    (correct_answer : option string)
    (acc : list (string * string)) (correct_key : option string)
    : result (list (string * string) * option string) :=
  match cleaned_choices with
  | [] => Ok (acc, correct_key)
  | choice_text :: rest =>
      label ← py_index choice_labels i;
      cleaned_answer ← clean_choice_text_on correct_answer;
      label_choices (S i) rest correct_answer (acc ++ [(label, choice_text)])
        (if decide (strip choice_text = strip cleaned_answer) then Some label
         else correct_key)
  end.

(** [choices_elem[0].text = text]. *)
Definition set_first_text (elems : list (string * string)) (text : string)
    : result (list (string * string)) :=
  match elems with
  | (label, _) :: rest => Ok ((label, text) :: rest)
  | [] => Raise (IndexError "child index out of range")
  end.

(** From the cleaning of the choices to the finished element. In the
    assignment to [choices_elem[0].text] the right-hand side is
    evaluated first. *)
Definition assemble (now : string) (q : question) (chs : list (option string))
    : result new_question :=
  cleaned_choices ← comprehension clean_choice_text_on chs;
  '(elems, correct_key) ← label_choices 0 cleaned_choices (correct_answer q) [] None;
  '(elems, correct_key) ←
    match correct_key with
    | Some key => Ok (elems, key)
    | None =>
        cleaned_answer ← clean_choice_text_on (correct_answer q);
        elems' ← set_first_text elems cleaned_answer;
        Ok (elems', "A")
    end;
  cleaned_answer ← clean_choice_text_on (correct_answer q);
  Ok {| new_id := question_id q;
        new_grade := str_of_Z (grade q);
        new_domain := domain q;
        new_standard := standard q;
        new_theme := theme q;
        new_status := "completed";
        stem := question_text q;
        new_choices := elems;
        answer_key := correct_key;
        answer_text := cleaned_answer;
        new_explanation := explanation q;
        metadata_theme := theme q;
        metadata_tier := "1";
        metadata_created := now |}.

(** The [except] clause of [improve_question]. *)
Definition processing_error (e : exn) : option new_question * string :=
  (None, "Processing error: " +:+ exn_message e).

(** [improve_question], on the set [seen_questions] and the time [now]
    of [datetime.now().isoformat()]. An exception leaves the set as it
    is at the point where it is raised: before the hash is added when
    the element cannot be read or hashed, after it otherwise. The
    counters of [self.stats] take no part in the result and are left
    out. *)
Definition improve_question (w : world) (now : string) (seen_questions : gset string)
    (question_elem : question_element)
    : outcome (gset string * (option new_question * string)) :=
  match read_question question_elem with
  | Raise e => Returns (seen_questions, processing_error e)
  | Ok q =>
      match create_question_hash (question_text q) (choices q) with
      | Raise e => Returns (seen_questions, processing_error e)
      | Ok question_hash =>
          if decide (question_hash ∈ seen_questions) then
            Returns (seen_questions, (None, "Duplicate question"))
          else
            let seen_questions := {[question_hash]} ∪ seen_questions in
            match validation_checks q with
            | Raise e => Returns (seen_questions, processing_error e)
            | Ok (Some reason) => Returns (seen_questions, (None, reason))
            | Ok None =>
                match improved_choices w q with
                | Spinning => Spinning
                | Returns chs =>
                    match assemble now q chs with
                    | Ok elem =>
                        Returns (seen_questions,
                                 (Some elem, "Successfully improved to production quality"))
                    | Raise e => Returns (seen_questions, processing_error e)
                    end
                end
            end
      end
  end.

End ImproveQuestion.

(** ** Wording of the specification

    The specification speaks of a text "whose only operation cue words are
    needed and/or total". [only_needed_or_total_cues] writes that down:
    one of the two words occurs, and every keyword of the four lists that
    occurs in the lowercased text is a part of one of the two words. *)

Definition cue_words : list string :=
  addition_words ++ subtraction_words ++ multiplication_words ++ division_words.

Definition only_needed_or_total_cues (text : string) : bool :=
  (contains "needed" (lower text) || contains "total" (lower text))
  && forallb
       (fun cue => implb (contains cue (lower text))
                     (contains cue "needed" || contains cue "total"))
       cue_words.

(** The specification's triviality test reads "the first integer of each
    choice" and "every adjacent gap at most 2 and the full range at most
    6, after sorting". *)

Definition first_integer (text : string) : option Z :=
  int_of_digits <$> head (digit_runs text).

Definition tightly_clustered (nums : list Z) : Prop :=
  exists sorted_nums : list Z,
    sorted_nums ≡ₚ nums
    /\ Sorted Z.le sorted_nums
    /\ (forall (i : nat) (a b : Z),
          sorted_nums !! i = Some a -> sorted_nums !! S i = Some b -> b - a <= 2)
    /\ (forall x y : Z, x ∈ nums -> y ∈ nums -> x - y <= 6).

(** "Exactly 3 members, all distinct, all different from the correct
    value, all in (0, L]". *)
Definition distractor_set (correct : Z) (lim : limit) (ds : list Z) : Prop :=
  length ds = 3%nat
  /\ NoDup ds
  /\ forall d, d ∈ ds -> d ≠ correct /\ 0 < d /\ le_limit d lim.

(** A world to run the model in: the draws 3, 4, 5, 6, 0, 1, sets
    iterated in the order of [elements], and a shuffle that leaves the
    list as it is. *)
Definition plain_world : world :=
  {| draws := [3; 4; 5; 6; 0; 1]%nat;
     set_iteration := elements;
     shuffled := fun l => l |}.

(** The element that holds the fields of [q]: every child present, the
    grade written in decimal. *)
Definition written (q : question) : question_element :=
  {| attr_id := question_id q;
     child_grade := Some (Some (str_of_Z (grade q)));
     child_domain := Some (domain q);
     child_standard := Some (standard q);
     child_questionText := Some (question_text q);
     child_correctAnswer := Some (correct_answer q);
     child_choices := Some (choices q);
     child_explanation := Some (explanation q);
     child_theme := Some (theme q) |}.

(** The question of the running example: four labelled choices, the
    second number missing from the text, so the math check passes for
    want of evidence. *)
Definition sample_question : question :=
  {| question_id := Some "q1"; grade := 3; domain := Some "OA"; standard := Some "3.OA.1";
     question_text := Some "Mix 3 drops"; correct_answer := Some "3 drops";
     choices := [Some "A. 3 drops"; Some "B. 19 drops"; Some "C. 52 drops"; Some "D. 7 drops"];
     explanation := Some "e"; theme := Some "t" |}.

(** The same question with a fifth choice. *)
Definition five_choice_question : question :=
  {| question_id := Some "q1"; grade := 3; domain := Some "OA"; standard := Some "3.OA.1";
     question_text := Some "Mix 3 drops"; correct_answer := Some "3 drops";
     choices := [Some "3 drops"; Some "19 drops"; Some "52 drops"; Some "7 drops";
                 Some "100 drops"];
     explanation := Some "e"; theme := Some "t" |}.

(** The same question with an empty [correctAnswer] element. *)
Definition empty_answer_question : question :=
  {| question_id := Some "q1"; grade := 3; domain := Some "OA"; standard := Some "3.OA.1";
     question_text := Some "Mix 3 drops"; correct_answer := None;
     choices := [Some "A. 3 drops"; Some "B. 19 drops"; Some "C. 52 drops"; Some "D. 7 drops"];
     explanation := Some "e"; theme := Some "t" |}.


(** "If some cleaned choice equals the cleaned answer, the key is that
    choice's label; if none does, the answer replaces choice A and the key
    is A": [cleaned] are the cleaned choices, [answer] the cleaned answer.
    When several choices equal the answer, the last one gives the key. *)
Definition answer_key_reconciled
    (cleaned : list string) (answer : string) (elem : new_question) : Prop :=
  answer_text elem = answer
  /\ ((exists j : nat, cleaned !! j = Some answer) ->
      exists (j : nat) (label : string),
        cleaned !! j = Some answer
        /\ (forall j' : nat, (j < j')%nat -> cleaned !! j' ≠ Some answer)
        /\ choice_labels !! j = Some label
        /\ answer_key elem = label
        /\ new_choices elem = zip choice_labels cleaned)
  /\ (answer ∉ cleaned ->
      answer_key elem = "A"
      /\ new_choices elem = <[0%nat := ("A", answer)]> (zip choice_labels cleaned)).

(** A grade 1 question whose answer lies above the ceiling of the grade. *)
Definition sum_of_twenties : question :=
  {| question_id := Some "q2"; grade := 1; domain := Some "OA"; standard := Some "1.OA.1";
     question_text := Some "What is the sum of 20 and 20?"; correct_answer := Some "40";
     choices := [Some "39"; Some "40"; Some "41"; Some "42"];
     explanation := Some "e"; theme := Some "t" |}.

(** The candidates the backfill loop can accept: [correct + offset] for
    the seven offsets, when acceptable. *)
Definition acceptable_candidates (correct : Z) (lim : limit) : gset Z :=
  list_to_set (filter (acceptable correct lim) ((fun offset => correct + offset) <$> offsets)).


(** A world in which each of the seven offsets is drawn once. *)
Definition fair_world : world :=
  {| draws := [0; 1; 2; 3; 4; 5; 6]%nat;
     set_iteration := elements;
     shuffled := fun l => l |}.

(** ** The entry point of the single-question service *)





Module ServerEntry.


End ServerEntry.

(** A text that does not begin with one of the letters A to D. *)
Definition no_label_start (s : string) : Prop :=
  match s with
  | String c _ => is_label_letter c = false
  | EmptyString => True
  end.


(** * Properties *)

(** ** Substrings *)

Lemma prefix_spec (p s : string) :
  String.prefix p s = true <-> exists post, s = p +:+ post.
Proof.
  revert s. induction p as [|c p IH]; intros s.
  - split; [intros _; exists s; reflexivity | by destruct s].
  - destruct s as [|c' s]; simpl.
    + split; [done | intros [post Hp]; discriminate].
    + destruct (ascii_dec c c') as [->|Hne].
      * rewrite IH. split; intros [post Hp]; exists post.
        -- simpl. by rewrite Hp.
        -- by injection Hp.
      * split; [done | intros [post Hp]]. injection Hp as Hc _. by destruct Hne.
Qed.

Lemma contains_nil (needle : string) :
  contains needle "" = String.prefix needle "".
Proof. unfold contains. apply orb_false_r. Qed.

Lemma contains_cons (needle : string) (c : ascii) (hay : string) :
  contains needle (String c hay)
  = String.prefix needle (String c hay) || contains needle hay.
Proof. reflexivity. Qed.

Lemma contains_spec (needle hay : string) :
  contains needle hay = true <-> exists pre post, hay = pre +:+ needle +:+ post.
Proof.
  induction hay as [|c hay IH].
  - rewrite contains_nil, prefix_spec. split.
    + intros [post Hp]. by exists "", post.
    + intros [[|c pre] [post Hp]]; [by exists post | discriminate].
  - rewrite contains_cons, orb_true_iff, prefix_spec, IH. split.
    + intros [[post Hp] | (pre & post & Hp)].
      * by exists "", post.
      * exists (String c pre), post. simpl. by rewrite Hp.
    + intros ([|c' pre] & post & Hp).
      * left. by exists post.
      * right. exists pre, post. by injection Hp.
Qed.

Lemma string_app_assoc (a b c : string) : (a +:+ b) +:+ c = a +:+ b +:+ c.
Proof.
  induction a as [|x a IH]; [reflexivity|].
  change (String x ((a +:+ b) +:+ c) = String x (a +:+ b +:+ c)).
  by rewrite IH.
Qed.

(** A text that contains a phrase contains every part of the phrase. *)
Lemma contains_part (left part right hay : string) :
  contains (left +:+ part +:+ right) hay = true -> contains part hay = true.
Proof.
  rewrite !contains_spec. intros (pre & post & ->).
  exists (pre +:+ left), (right +:+ post).
  by rewrite !string_app_assoc.
Qed.

Lemma any_in_intro (word : string) (words : list string) (text : string) :
  word ∈ words -> contains word text = true -> any_in words text = true.
Proof.
  intros Hin Hc. unfold any_in. apply existsb_exists.
  exists word. split; [by apply list_elem_of_In | done].
Qed.

Lemma how_many_more_has_more (text : string) :
  contains "how many more" text = true -> any_in addition_words text = true.
Proof.
  intros H. apply (any_in_intro "more"); [set_solver|].
  by apply (contains_part "how many " "more" "").
Qed.

Lemma needed_has_need (text : string) :
  contains "needed" text = true -> contains "need" text = true.
Proof. apply (contains_part "" "need" "ed"). Qed.

Lemma how_many_more_has_how_many (text : string) :
  contains "how many more" text = true -> contains "how many" text = true.
Proof. apply (contains_part "" "how many" " more"). Qed.

(** ** The classifier *)

Lemma at_least_two {A} (l : list A) :
  ¬ (length l < 2)%nat -> exists x y rest, l = x :: y :: rest.
Proof. destruct l as [|x [|y rest]]; simpl; [lia | lia | eauto]. Qed.

Example classify_add :
  detect_operation_and_calculate "Add 3, 4 and 5 drops" (extract_numbers "Add 3, 4 and 5 drops")
  = Ok (Some 12, "addition").
Proof. reflexivity. Qed.

Example classify_split :
  detect_operation_and_calculate "Split 12 vials equally into 4" [12; 4] = Ok (Some 3, "division")
  ∧ detect_operation_and_calculate "Split 12 vials equally into 0" [12; 0]
    = Ok (None, "division_by_zero").
Proof. split; reflexivity. Qed.

(** C3. The specification expects subtraction with max − min for a text
    with "how many more". The code tests the addition keywords first, and
    "more" is one of them: every such text with two numbers or more is
    classified as addition, with the sum of its numbers. *)
Theorem how_many_more_classified_as_addition (text : string) (numbers : list Z) :
  contains "how many more" (lower text) = true ->
  (2 <= length numbers)%nat ->
  detect_operation_and_calculate text numbers = Ok (Some (py_sum numbers), "addition").
Proof.
  intros Hmore Hlen. unfold detect_operation_and_calculate.
  case_decide; [lia|].
  by rewrite (how_many_more_has_more _ Hmore).
Qed.

Lemma how_many_more_classified_as_addition_witness :
  detect_operation_and_calculate "Tom has 15 vials and Ann has 9. How many more has Tom?" [15; 9]
  = Ok (Some 24, "addition").
Proof.
  apply (how_many_more_classified_as_addition
           "Tom has 15 vials and Ann has 9. How many more has Tom?" [15; 9]).
  - reflexivity.
  - simpl. lia.
Defined.

(** C4, as the specification states it, fails: a text whose only cue word
    is "needed" is classified as subtraction, because "needed" is no
    addition keyword and contains the subtraction keyword "need". *)
Lemma needed_only_not_addition :
  ¬ (forall (text : string) (numbers : list Z),
       (2 <= length numbers)%nat ->
       only_needed_or_total_cues text = true ->
       detect_operation_and_calculate text numbers
       = Ok (Some (py_sum numbers), "addition")).
Proof.
  intros H.
  specialize (H "5 potions needed for 3 days" [5; 3]).
  assert (detect_operation_and_calculate "5 potions needed for 3 days" [5; 3]
          = Ok (Some 2, "subtraction")) as Hrun by reflexivity.
  rewrite Hrun in H.
  discriminate H; [simpl; lia | reflexivity].
Qed.

(** A text with "needed" and no addition keyword is classified as
    subtraction, through the keyword "need": with max − min when it also
    contains "how many", with the first number minus the second
    otherwise. The entry "needed" of the multiplication list is never
    reached. *)
Lemma needed_without_addition_word_is_subtraction (text : string) (numbers : list Z) :
  (2 <= length numbers)%nat ->
  contains "needed" (lower text) = true ->
  any_in addition_words (lower text) = false ->
  exists n0 n1 rest, numbers = n0 :: n1 :: rest
    ∧ detect_operation_and_calculate text numbers
      = Ok (Some (if contains "how many" (lower text)
                  then foldl Z.max n0 (n1 :: rest) - foldl Z.min n0 (n1 :: rest)
                  else n0 - n1), "subtraction").
Proof.
  intros Hlen Hneeded Hnoadd.
  destruct (at_least_two numbers ltac:(lia)) as (n0 & n1 & rest & ->).
  exists n0, n1, rest. split; [done|].
  unfold detect_operation_and_calculate.
  case_decide; [simpl in *; lia|].
  rewrite Hnoadd.
  pose proof (needed_has_need _ Hneeded) as Hneed.
  rewrite (any_in_intro "need" subtraction_words _ ltac:(set_solver) Hneed).
  rewrite Hneed, andb_true_r.
  destruct (contains "how many more" (lower text)) eqn:Hmore.
  - by rewrite (how_many_more_has_more _ Hmore) in Hnoadd.
  - simpl. by destruct (contains "how many" (lower text)).
Qed.

(** C4, amended. A text with two numbers or more that contains "total",
    the keyword listed for addition and for multiplication, is classified
    as addition, with the sum of all its numbers. *)
Theorem total_is_classified_as_addition (text : string) (numbers : list Z) :
  (2 <= length numbers)%nat ->
  contains "total" (lower text) = true ->
  detect_operation_and_calculate text numbers = Ok (Some (py_sum numbers), "addition").
Proof.
  intros Hlen Htotal. unfold detect_operation_and_calculate.
  case_decide; [lia|].
  by rewrite (any_in_intro "total" addition_words _ ltac:(set_solver) Htotal).
Qed.

Lemma total_is_classified_as_addition_witness :
  detect_operation_and_calculate "The total needed for 5 vials of 3 drops" [5; 3]
  = Ok (Some 8, "addition").
Proof.
  apply (total_is_classified_as_addition "The total needed for 5 vials of 3 drops" [5; 3]).
  - simpl. lia.
  - reflexivity.
Defined.

(** C6. The classifier raises nothing; with fewer than two numbers it
    reports [insufficient_numbers]; with a division keyword, no keyword of
    an earlier operation and a second number equal to zero it reports
    [division_by_zero]; with no keyword at all it reports
    [operation_unclear]. *)
Theorem classifier_total_and_soft_failures (text : string) (numbers : list Z) :
  (exists r, detect_operation_and_calculate text numbers = Ok r)
  ∧ ((length numbers < 2)%nat ->
     detect_operation_and_calculate text numbers = Ok (None, "insufficient_numbers"))
  ∧ ((2 <= length numbers)%nat ->
     any_in addition_words (lower text) = false ->
     any_in subtraction_words (lower text) = false ->
     any_in multiplication_words (lower text) = false ->
     (any_in division_words (lower text) = true -> numbers !! 1%nat = Some 0 ->
      detect_operation_and_calculate text numbers = Ok (None, "division_by_zero"))
     ∧ (any_in division_words (lower text) = false ->
        detect_operation_and_calculate text numbers = Ok (None, "operation_unclear"))).
Proof.
  unfold detect_operation_and_calculate. split; [|split].
  - case_decide as Hlen; [eauto|].
    destruct (at_least_two numbers Hlen) as (n0 & n1 & rest & ->). simpl.
    repeat (match goal with
            | |- context [if ?b then _ else _] => destruct b
            end; simpl; eauto).
    unfold py_floordiv. case_decide; [done | eauto].
  - intros Hlen. by case_decide.
  - intros Hlen Hadd Hsub Hmul. rewrite Hadd, Hsub, Hmul.
    case_decide; [lia|]. split.
    + intros -> H1. unfold py_index. rewrite H1. reflexivity.
    + by intros ->.
Qed.

Lemma classifier_total_and_soft_failures_witness :
  detect_operation_and_calculate "Split 12 vials equally into 0" [12; 0]
  = Ok (None, "division_by_zero").
Proof.
  refine (proj1 (proj2 (proj2 (classifier_total_and_soft_failures
                                 "Split 12 vials equally into 0" [12; 0])) _ _ _ _) _ _);
    (reflexivity || (simpl; lia)).
Defined.

(** ** The math validator *)

(** C5. The validator answers [false] exactly when the question and the
    answer have text, the classifier computes a value, and the first
    number of the answer differs from it; the reason then names the
    operation, the numbers, the expected value and the value found. With
    no computed value or no number in the answer it answers [true]; and
    when its body raises, which it does on a question without text and,
    once a value is computed, on an answer without text, it answers
    [true] with the message of the exception. *)
Theorem validator_fails_only_on_mismatch
    (question_text : option string) (chs : list (option string))
    (correct_answer : option string) :
  ((validate_math_comprehensive question_text chs correct_answer).1 = false <->
     exists text answer expected operation a rest,
       question_text = Some text ∧ correct_answer = Some answer
       ∧ detect_operation_and_calculate text (extract_numbers text) = Ok (Some expected, operation)
       ∧ extract_numbers answer = a :: rest ∧ a ≠ expected)
  ∧ (forall text answer expected operation a rest,
       question_text = Some text -> correct_answer = Some answer ->
       detect_operation_and_calculate text (extract_numbers text) = Ok (Some expected, operation) ->
       extract_numbers answer = a :: rest -> a ≠ expected ->
       validate_math_comprehensive question_text chs correct_answer
       = (false, "Math error: " +:+ operation +:+ " of " +:+ str_of_list (extract_numbers text)
                 +:+ " should be " +:+ str_of_Z expected +:+ ", got " +:+ str_of_Z a))
  ∧ (forall text reason,
       question_text = Some text ->
       detect_operation_and_calculate text (extract_numbers text) = Ok (None, reason) ->
       validate_math_comprehensive question_text chs correct_answer
       = (true, "Cannot validate: " +:+ reason))
  ∧ (forall text answer expected operation,
       question_text = Some text -> correct_answer = Some answer ->
       detect_operation_and_calculate text (extract_numbers text) = Ok (Some expected, operation) ->
       extract_numbers answer = [] ->
       validate_math_comprehensive question_text chs correct_answer
       = (true, "No number in correct answer - assuming valid"))
  ∧ (forall e,
       validate_math_comprehensive_body question_text chs correct_answer = Raise e ->
       validate_math_comprehensive question_text chs correct_answer
       = (true, "Validation error - assuming valid: " +:+ exn_message e))
  ∧ (question_text = None ->
     validate_math_comprehensive question_text chs correct_answer
     = (true, "Validation error - assuming valid: expected string or bytes-like object"))
  ∧ (forall text expected operation,
       question_text = Some text -> correct_answer = None ->
       detect_operation_and_calculate text (extract_numbers text) = Ok (Some expected, operation) ->
       validate_math_comprehensive question_text chs correct_answer
       = (true, "Validation error - assuming valid: expected string or bytes-like object")).
Proof.
  unfold validate_math_comprehensive, validate_math_comprehensive_body.
  destruct question_text as [text|]; simpl;
    [destruct (detect_operation_and_calculate text (extract_numbers text))
       as [[[expected|] operation]|e] eqn:Hdetect; simpl;
     [destruct correct_answer as [answer|]; simpl;
      [destruct (extract_numbers answer) as [|a rest] eqn:Hanswer; simpl;
       [|destruct (decide (a = expected)) as [->|Hne]; simpl]|]| |]|].
  all: (split; [split; [intros; simplify_eq/=
                    |intros (? & ? & ? & ? & ? & ? & ? & ? & ? & ? & ?);
                     try (simplify_eq/=; congruence)]|]).
  all: try (by exists text, answer, expected, operation, a, rest).
  all: repeat split; intros; simplify_eq/=; congruence.
Qed.

Lemma validator_fails_only_on_mismatch_witness :
  validate_math_comprehensive (Some "Mia has 15 vials and gives 9 away. How many are left?") []
    (Some "7 vials")
  = (false, "Math error: subtraction of [15, 9] should be 6, got 7")
  ∧ validate_math_comprehensive (Some "Mia has 15 vials and gives 9 away. How many are left?")
      [] None
    = (true, "Validation error - assuming valid: expected string or bytes-like object").
Proof.
  split.
  - apply (proj1 (proj2 (validator_fails_only_on_mismatch
             (Some "Mia has 15 vials and gives 9 away. How many are left?") []
             (Some "7 vials")))
             "Mia has 15 vials and gives 9 away. How many are left?" "7 vials"
             6 "subtraction" 7 []); [reflexivity | reflexivity | reflexivity | reflexivity | lia].
  - apply (proj2 (proj2 (proj2 (proj2 (proj2 (proj2 (validator_fails_only_on_mismatch
             (Some "Mia has 15 vials and gives 9 away. How many are left?") [] None))))))
             "Mia has 15 vials and gives 9 away. How many are left?" 6 "subtraction");
      reflexivity.
Defined.

(** ** The triviality detector *)

Lemma numeric_choices_texts (texts : list string) :
  numeric_choices (Some <$> texts) = Ok (omap first_integer texts).
Proof.
  induction texts as [|text texts IH]; [done|].
  cbn [fmap list_fmap numeric_choices findall_digits mbind result_bind omap list_omap].
  unfold first_integer. rewrite IH.
  by destruct (digit_runs text).
Qed.

Lemma numeric_choices_none (chs : list (option string)) :
  None ∈ chs -> exists e, numeric_choices chs = Raise e.
Proof.
  induction chs as [|[text|] chs IH]; intros Hin.
  - by apply elem_of_nil in Hin.
  - apply elem_of_cons in Hin as [?|Hin]; [done|].
    destruct (IH Hin) as [e He]. simpl. rewrite He.
    destruct (digit_runs text); simpl; eauto.
  - simpl. eauto.
Qed.

Lemma texts_or_none (chs : list (option string)) :
  (exists texts, chs = Some <$> texts) ∨ None ∈ chs.
Proof.
  induction chs as [|[text|] chs [[texts ->]|Hin]].
  - left. by exists [].
  - left. by exists (text :: texts).
  - right. by apply elem_of_cons; right.
  - right. apply elem_of_cons; by left.
  - right. apply elem_of_cons; by left.
Qed.

Lemma for_range_ok {A} (f : nat -> result A) (g : nat -> A) (start count : nat) :
  (forall i, (start <= i < start + count)%nat -> f i = Ok (g i)) ->
  for_range f start count = Ok (g <$> seq start count).
Proof.
  revert start. induction count as [|count IH]; intros start Hf; [done|].
  simpl. rewrite Hf by lia. simpl.
  rewrite IH; [done|]. intros i Hi. apply Hf. lia.
Qed.

Lemma differences_ok (l : list Z) :
  differences l = Ok (gap l <$> seq 0 (length l - 1)).
Proof.
  unfold differences. apply for_range_ok. intros i Hi.
  destruct (lookup_lt_is_Some_2 l (S i) ltac:(lia)) as [hi Hhi].
  destruct (lookup_lt_is_Some_2 l i ltac:(lia)) as [lo Hlo].
  unfold py_index, gap. by rewrite Hhi, Hlo.
Qed.

Lemma gaps_small (l : list Z) :
  forallb (fun diff => diff <=? 2) (gap l <$> seq 0 (length l - 1)) = true
  <-> forall (i : nat) (a b : Z), l !! i = Some a -> l !! S i = Some b -> b - a <= 2.
Proof.
  rewrite forallb_forall. split.
  - intros H i a b Ha Hb.
    assert (S i < length l)%nat as Hi by (by eapply lookup_lt_Some).
    assert (gap l i <= 2) as Hgap.
    { apply Z.leb_le, H, list_elem_of_In, list_elem_of_fmap.
      exists i. split; [done|]. apply elem_of_seq. lia. }
    unfold gap in Hgap. by rewrite Ha, Hb in Hgap.
  - intros H d Hd. apply Z.leb_le.
    apply list_elem_of_In, list_elem_of_fmap in Hd as (i & -> & Hi).
    apply elem_of_seq in Hi.
    destruct (lookup_lt_is_Some_2 l (S i) ltac:(lia)) as [hi Hhi].
    destruct (lookup_lt_is_Some_2 l i ltac:(lia)) as [lo Hlo].
    unfold gap. rewrite Hhi, Hlo. simpl. by eapply H.
Qed.

Lemma foldl_max_spec (l : list Z) (x : Z) :
  foldl Z.max x l ∈ x :: l ∧ forall y, y ∈ x :: l -> y <= foldl Z.max x l.
Proof.
  revert x. induction l as [|z l IH]; intros x; simpl.
  - split; [by left|]. intros y Hy. apply list_elem_of_singleton in Hy. lia.
  - destruct (IH (Z.max x z)) as [Hin Hle].
    pose proof (Hle (Z.max x z) ltac:(by left)) as Hfirst.
    split.
    + apply elem_of_cons in Hin as [Hin|Hin].
      * rewrite Hin. rewrite !elem_of_cons.
        destruct (Z.max_spec x z) as [[_ ->]|[_ ->]]; auto.
      * rewrite !elem_of_cons. auto.
    + intros y Hy. rewrite !elem_of_cons in Hy.
      destruct Hy as [->|[->|Hy]]; [lia | lia |].
      apply Hle. by right.
Qed.

Lemma foldl_min_spec (l : list Z) (x : Z) :
  foldl Z.min x l ∈ x :: l ∧ forall y, y ∈ x :: l -> foldl Z.min x l <= y.
Proof.
  revert x. induction l as [|z l IH]; intros x; simpl.
  - split; [by left|]. intros y Hy. apply list_elem_of_singleton in Hy. lia.
  - destruct (IH (Z.min x z)) as [Hin Hle].
    pose proof (Hle (Z.min x z) ltac:(by left)) as Hfirst.
    split.
    + apply elem_of_cons in Hin as [Hin|Hin].
      * rewrite Hin. rewrite !elem_of_cons.
        destruct (Z.min_spec x z) as [[_ ->]|[_ ->]]; auto.
      * rewrite !elem_of_cons. auto.
    + intros y Hy. rewrite !elem_of_cons in Hy.
      destruct Hy as [->|[->|Hy]]; [lia | lia |].
      apply Hle. by right.
Qed.

(** The range test of the code, on a list that is not empty. *)
Lemma range_small (l : list Z) :
  l ≠ [] ->
  exists hi lo, py_max l = Ok hi ∧ py_min l = Ok lo
    ∧ (hi - lo <= 6 <-> forall x y, x ∈ l -> y ∈ l -> x - y <= 6).
Proof.
  destruct l as [|z l]; [done|]. intros _.
  exists (foldl Z.max z l), (foldl Z.min z l). split; [done|]. split; [done|].
  destruct (foldl_max_spec l z) as [Hmax_in Hmax].
  destruct (foldl_min_spec l z) as [Hmin_in Hmin].
  split.
  - intros H x y Hx Hy. specialize (Hmax x Hx). specialize (Hmin y Hy). lia.
  - intros H. by apply H.
Qed.

Lemma py_sorted_unique (nums sorted_nums : list Z) :
  sorted_nums ≡ₚ nums -> Sorted Z.le sorted_nums -> sorted_nums = py_sorted nums.
Proof.
  intros Hperm Hsorted. unfold py_sorted.
  apply (Sorted_unique Z.le); [done | apply (Sorted_merge_sort Z.le) |].
  by rewrite merge_sort_Permutation.
Qed.

(** C7. The detector answers [true] exactly when every choice is a text,
    three of them or more hold an integer, and the first integers of the
    choices, once sorted, have every adjacent gap at most 2 and a range
    at most 6. A choice without text, or fewer than three numeric
    choices, gives [false]. *)
Theorem trivial_iff_tightly_clustered (chs : list (option string)) :
  (has_trivial_distractors chs = true <->
     exists texts, chs = Some <$> texts
       ∧ (3 <= length (omap first_integer texts))%nat
       ∧ tightly_clustered (omap first_integer texts))
  ∧ (None ∈ chs -> has_trivial_distractors chs = false)
  ∧ (forall texts, chs = Some <$> texts ->
       (length (omap first_integer texts) < 3)%nat ->
       has_trivial_distractors chs = false)
  ∧ has_trivial_distractors [Some "5 potions"; Some "6 potions"; Some "7 potions"] = true
  ∧ has_trivial_distractors [Some "3 drops"; Some "19 drops"; Some "52 drops"] = false.
Proof.
  assert (None ∈ chs -> has_trivial_distractors chs = false) as Hnone.
  { intros Hin. destruct (numeric_choices_none chs Hin) as [e He].
    unfold has_trivial_distractors, has_trivial_distractors_body. by rewrite He. }
  assert (forall texts, chs = Some <$> texts ->
            has_trivial_distractors chs = true <->
            (3 <= length (omap first_integer texts))%nat
            ∧ tightly_clustered (omap first_integer texts)) as Htexts.
  { intros texts ->.
    unfold has_trivial_distractors, has_trivial_distractors_body.
    rewrite numeric_choices_texts. simpl.
    set (nums := omap first_integer texts).
    case_decide as Hlen; [|split; [done | intros [? _]; lia]].
    rewrite differences_ok. simpl.
    assert (py_sorted nums ≡ₚ nums) as Hperm by apply merge_sort_Permutation.
    assert (py_sorted nums ≠ []) as Hne.
    { intros Hnil. rewrite Hnil in Hperm. apply Permutation_length in Hperm.
      simpl in Hperm. lia. }
    destruct (range_small (py_sorted nums) Hne) as (hi & lo & -> & -> & Hrange).
    pose proof (gaps_small (py_sorted nums)) as Hgaps.
    destruct (forallb _ _) eqn:Hall; simpl.
    - case_decide as Hr; split; try done.
      + intros _. split; [done|]. exists (py_sorted nums).
        split; [done|]. split; [apply (Sorted_merge_sort Z.le)|].
        split; [by apply Hgaps|].
        intros x y Hx Hy. apply Hrange; [done | by rewrite Hperm..].
      + intros [_ (s & Hs & Hsorted & _ & Hr')]. destruct Hr.
        apply Hrange. intros x y Hx Hy. apply Hr'; by rewrite <-Hperm.
    - split; [done|]. intros [_ (s & Hs & Hsorted & Hg & _)].
      rewrite (py_sorted_unique nums s Hs Hsorted) in Hg.
      apply Hgaps in Hg. congruence. }
  split; [|split; [done|split; [|split; reflexivity]]].
  - destruct (texts_or_none chs) as [[texts Heq]|Hin].
    + rewrite (Htexts texts Heq). split.
      * intros [??]. by exists texts.
      * intros (texts' & Heq' & ? & ?).
        assert (texts' = texts) as ->; [|done].
        rewrite Heq in Heq'. by apply (inj (fmap Some)) in Heq'.
    + rewrite (Hnone Hin). split; [done|].
      intros (texts & -> & _). apply list_elem_of_fmap in Hin as (? & ? & _). done.
  - intros texts Heq Hlen.
    apply not_true_is_false. intros Hres.
    apply (Htexts texts Heq) in Hres as [? _]. lia.
Qed.

Lemma trivial_iff_tightly_clustered_witness :
  has_trivial_distractors [Some "12"; None; Some "13"; Some "14"] = false.
Proof.
  apply (proj1 (proj2 (trivial_iff_tightly_clustered
                         [Some "12"; None; Some "13"; Some "14"]))).
  apply elem_of_cons; right. apply elem_of_cons; by left.
Defined.

(** ** The distractor synthesizer *)

Lemma admissible_plain_world : admissible plain_world.
Proof. split; intros; reflexivity. Qed.

Lemma remove_invalid_spec (correct : Z) (lim : limit) (pool : gset Z) (d : Z) :
  d ∈ remove_invalid correct lim pool
  <-> d ∈ pool ∧ d ≠ correct ∧ 0 < d ∧ le_limit d lim.
Proof.
  unfold remove_invalid, in_bounds.
  rewrite elem_of_filter, elem_of_difference, not_elem_of_singleton. tauto.
Qed.

(** What the loop leaves when it ends: three members or more, the old
    ones and accepted candidates only. *)
Lemma backfill_returns (rnd : list nat) (correct : Z) (lim : limit) (pool pool' : gset Z) :
  backfill rnd correct lim pool = Returns pool' ->
  (3 <= size pool')%nat
  ∧ forall d, d ∈ pool' -> d ∈ pool ∨ acceptable correct lim d.
Proof.
  revert pool. induction rnd as [|i rnd IH]; intros pool; simpl.
  - case_decide; [done|]. intros [= <-]. split; [lia | auto].
  - case_decide as Hsize; [|intros [= <-]; split; [lia | auto]].
    case_decide as Hok; intros Hrun; destruct (IH _ Hrun) as [Hthree Hmem];
      (split; [done|]); [|done].
    intros d Hd. destruct (Hmem d Hd) as [Hin|?]; [|by right].
    apply elem_of_union in Hin as [Hin|?]; [|by left].
    apply elem_of_singleton in Hin as ->. by right.
Qed.

(** With three members already, the loop body is not entered. *)
Lemma backfill_enough (rnd : list nat) (correct : Z) (lim : limit) (pool : gset Z) :
  (3 <= size pool)%nat -> backfill rnd correct lim pool = Returns pool.
Proof. intros Hsize. destruct rnd; simpl; case_decide; (done || lia). Qed.

Lemma random_choice_offsets (i : nat) : random_choice i offsets ∈ offsets.
Proof.
  unfold random_choice. apply list_elem_of_lookup_total_2.
  apply Nat.mod_upper_bound. done.
Qed.

(** With fewer than three members and no offset that leads to an
    acceptable candidate, the loop never ends. *)
Lemma backfill_spins (rnd : list nat) (correct : Z) (lim : limit) (pool : gset Z) :
  (size pool < 3)%nat ->
  (forall offset, offset ∈ offsets -> ¬ acceptable correct lim (correct + offset)) ->
  backfill rnd correct lim pool = Spinning.
Proof.
  intros Hsize Hnone. induction rnd as [|i rnd IH]; simpl.
  - by case_decide.
  - case_decide; [|lia].
    case_decide as Hok; [|done].
    by destruct (Hnone _ (random_choice_offsets i)).
Qed.

Lemma filter_ext_elem {A} (P1 P2 : A -> Prop)
    `{!forall x, Decision (P1 x), !forall x, Decision (P2 x)} (l : list A) :
  (forall x, x ∈ l -> P1 x <-> P2 x) -> filter P1 l = filter P2 l.
Proof.
  induction l as [|a l IH]; intros Hiff; [done|].
  rewrite !filter_cons.
  rewrite IH by (intros x Hx; apply Hiff; by right).
  destruct (decide (P1 a)) as [H1|H1], (decide (P2 a)) as [H2|H2]; try done;
    destruct (Hiff a ltac:(by left)); tauto.
Qed.

(** The selection keeps three members of a duplicate-free list of three
    or more. *)
Lemma select_final_spec (wrong_ops : list (option Z)) (l : list Z) :
  NoDup l -> (3 <= length l)%nat ->
  length (select_final wrong_ops l) = 3%nat
  ∧ NoDup (select_final wrong_ops l)
  ∧ forall d, d ∈ select_final wrong_ops l -> d ∈ l.
Proof.
  intros Hnodup Hlen. unfold select_final.
  set (P := fun d : Z => Some d ∈ wrong_ops).
  set (priority := filter P l).
  assert (filter (fun d => d ∉ priority) l = filter (fun d => ¬ P d) l) as ->.
  { apply filter_ext_elem. intros x Hx. unfold priority.
    rewrite list_elem_of_filter. tauto. }
  set (others := filter (fun d => ¬ P d) l).
  assert (priority ++ others ≡ₚ l) as Hperm by apply filter_app_complement.
  assert (length priority + length others = length l)%nat as Hsum.
  { by rewrite <-length_app, Hperm. }
  assert (NoDup (priority ++ others)) as Hnd by (by rewrite Hperm).
  assert (forall k1 k2, NoDup (take k1 priority ++ take k2 others)) as Hsub.
  { intros k1 k2. eapply sublist_NoDup; [exact Hnd|].
    apply sublist_app; apply sublist_take. }
  assert (forall k1 k2 d, d ∈ take k1 priority ++ take k2 others -> d ∈ l) as Hin.
  { intros k1 k2 d Hd. rewrite <-Hperm.
    eapply elem_of_sublist; [exact Hd|]. apply sublist_app; apply sublist_take. }
  rewrite length_take.
  case_decide as Hrem.
  - split; [|split; [apply Hsub | apply Hin]].
    rewrite length_app, !length_take. lia.
  - assert (take 3 priority = take 3 priority ++ take 0 others) as ->.
    { by rewrite take_0, app_nil_r. }
    split; [|split; [apply Hsub | apply Hin]].
    rewrite length_app, !length_take. lia.
Qed.

Lemma take_three_spec (l : list Z) :
  NoDup l -> (3 <= length l)%nat ->
  length (take 3 l) = 3%nat ∧ NoDup (take 3 l) ∧ forall d, d ∈ take 3 l -> d ∈ l.
Proof.
  intros Hnodup Hlen. split; [rewrite length_take; lia|]. split.
  - eapply sublist_NoDup; [done | apply sublist_take].
  - intros d Hd. eapply elem_of_sublist; [done | apply sublist_take].
Qed.

(** The invariant of the synthesizer, for either selection list. *)
Lemma selection_is_distractor_set (w : world) (correct : Z) (lim : limit)
    (pool pool' : gset Z) (numbers : list Z) (wrong_ops : Z -> Z -> list (option Z)) :
  admissible w ->
  backfill (draws w) correct lim (remove_invalid correct lim pool) = Returns pool' ->
  distractor_set correct lim
    match numbers with
    | n0 :: n1 :: _ => select_final (wrong_ops n0 n1) (set_iteration w pool')
    | _ => take 3 (set_iteration w pool')
    end.
Proof.
  intros [Hiter _] Hrun.
  destruct (backfill_returns _ _ _ _ _ Hrun) as [Hsize Hmem].
  set (l := set_iteration w pool').
  assert (l ≡ₚ elements pool') as Hperm by apply Hiter.
  assert (NoDup l) as Hnodup by (rewrite Hperm; apply NoDup_elements).
  assert (3 <= length l)%nat as Hlen by (by rewrite Hperm).
  assert (forall d, d ∈ l -> d ≠ correct ∧ 0 < d ∧ le_limit d lim) as Hgood.
  { intros d Hd. rewrite Hperm in Hd. apply elem_of_elements in Hd.
    destruct (Hmem d Hd) as [Hin|Hacc]; [|unfold acceptable in Hacc; tauto].
    apply remove_invalid_spec in Hin. tauto. }
  unfold distractor_set.
  destruct numbers as [|n0 [|n1 rest]].
  - destruct (take_three_spec l Hnodup Hlen) as (? & ? & Hsub). auto.
  - destruct (take_three_spec l Hnodup Hlen) as (? & ? & Hsub). auto.
  - destruct (select_final_spec (wrong_ops n0 n1) l Hnodup Hlen) as (? & ? & Hsub).
    auto.
Qed.

Lemma server_final_distractors_ok (w : world) (text answer : string) (grade : Z) (ds : list Z) :
  admissible w ->
  Server.final_distractors w text answer grade = Returns (Some ds) ->
  exists correct rest,
    extract_numbers answer = correct :: rest
    ∧ distractor_set correct (grade_limit grade) ds.
Proof.
  intros Hw. unfold Server.final_distractors.
  destruct (extract_numbers answer) as [|correct rest]; [done|].
  destruct (classified text (extract_numbers text)) as [operation|]; [|done].
  destruct (backfill _ _ _ _) as [pool'|] eqn:Hrun; [|done].
  intros [= <-]. exists correct, rest. split; [done|].
  by eapply (selection_is_distractor_set w correct _ _ pool' _ Server.wrong_operations).
Qed.

Lemma potion_final_distractors_ok (w : world) (text answer : string) (grade : Z) (ds : list Z) :
  admissible w ->
  Potion.final_distractors w text answer grade = Returns (Some ds) ->
  exists correct rest,
    extract_numbers answer = correct :: rest
    ∧ distractor_set correct (grade_limit grade) ds.
Proof.
  intros Hw. unfold Potion.final_distractors.
  destruct (extract_numbers answer) as [|correct rest]; [done|].
  destruct (classified text (extract_numbers text)) as [operation|]; [|done].
  destruct (backfill _ _ _ _) as [pool'|] eqn:Hrun; [|done].
  intros [= <-]. exists correct, rest. split; [done|].
  by eapply (selection_is_distractor_set w correct _ _ pool' _ Potion.wrong_operations).
Qed.

(** Formatting keeps distinct values distinct. *)
Lemma str_of_Z_inj (a b : Z) : str_of_Z a = str_of_Z b -> a = b.
Proof.
  unfold str_of_Z. intros Heq.
  assert (forall z, NilZero.int_of_string (NilZero.string_of_int (Z.to_int z))
                    = Some (Z.to_int z)) as Hparse.
  { intros z. apply NilZero.isi; destruct z; simpl; try done;
      intros [= Hnil]; by apply DecimalPos.Unsigned.to_uint_nonnil in Hnil. }
  apply DecimalZ.to_int_inj.
  pose proof (Hparse a) as Ha. rewrite Heq, Hparse in Ha. by injection Ha.
Qed.

Lemma string_length_app (a b : string) :
  String.length (a +:+ b) = (String.length a + String.length b)%nat.
Proof.
  induction a as [|c a IH]; [done|].
  change (S (String.length (a +:+ b)) = S (String.length a + String.length b)).
  by rewrite IH.
Qed.

Lemma string_app_cancel_r (a b suffix : string) :
  a +:+ suffix = b +:+ suffix -> a = b.
Proof.
  revert b. induction a as [|c a IH]; intros [|c' b] Heq; [done|..].
  - apply (f_equal String.length) in Heq.
    rewrite !string_length_app in Heq. simpl in Heq. lia.
  - apply (f_equal String.length) in Heq.
    rewrite !string_length_app in Heq. simpl in Heq. lia.
  - change (String c (a +:+ suffix) = String c' (b +:+ suffix)) in Heq.
    injection Heq as -> Heq. f_equal. by apply IH.
Qed.

Lemma format_choice_inj (unit : string) : Inj (=) (=) (format_choice unit).
Proof.
  intros a b Heq. unfold format_choice in Heq.
  by apply string_app_cancel_r, str_of_Z_inj in Heq.
Qed.

Lemma distractor_set_with_correct (correct : Z) (lim : limit) (ds : list Z) :
  distractor_set correct lim ds ->
  length (correct :: ds) = 4%nat ∧ NoDup (correct :: ds).
Proof.
  intros (Hthree & Hnodup & Hgood). split; [simpl; by rewrite Hthree|].
  apply NoDup_cons. split; [|done].
  intros Hin. by destruct (Hgood _ Hin) as [? _].
Qed.

(** C1. Whenever the synthesizer returns choices, the distractor values
    behind them are exactly three, pairwise distinct, different from the
    correct value, positive and at most the ceiling of the grade. The
    service returns these three values formatted, three distinct texts;
    the batch driver returns them with the formatted correct value, four
    distinct texts in shuffled order. *)
Theorem distractors_three_distinct_within_ceiling
    (w : world) (text answer : string) (grade : Z) (chs : list string) :
  admissible w ->
  (Server.generate_smart_distractors w text answer grade = Returns (Some chs) ->
   exists correct rest ds,
     extract_numbers answer = correct :: rest
     ∧ distractor_set correct (grade_limit grade) ds
     ∧ chs = format_choice (Server.first_unit (split answer)) <$> ds
     ∧ length chs = 3%nat ∧ NoDup chs)
  ∧ (Potion.generate_smart_distractors w text answer grade = Returns (Some chs) ->
     exists correct rest ds,
       extract_numbers answer = correct :: rest
       ∧ distractor_set correct (grade_limit grade) ds
       ∧ chs ≡ₚ format_choice (Potion.first_unit Potion.unit_patterns (lower answer))
                  <$> correct :: ds
       ∧ length chs = 4%nat ∧ NoDup chs).
Proof.
  intros Hw. split.
  - unfold Server.generate_smart_distractors.
    destruct (Server.final_distractors w text answer grade) as [[ds|]|] eqn:Hfinal;
      [|done..].
    intros [= <-].
    destruct (server_final_distractors_ok _ _ _ _ _ Hw Hfinal)
      as (correct & rest & ? & Hset).
    exists correct, rest, ds.
    split; [done|]. split; [done|]. split; [done|]. split.
    + rewrite length_fmap. apply Hset.
    + pose proof (format_choice_inj (Server.first_unit (split answer))) as Hinj.
      apply (NoDup_fmap_2 _), Hset.
  - unfold Potion.generate_smart_distractors.
    destruct (Potion.final_distractors w text answer grade) as [[ds|]|] eqn:Hfinal;
      [|done..].
    destruct (potion_final_distractors_ok _ _ _ _ _ Hw Hfinal)
      as (correct & rest & Heq & Hset).
    rewrite Heq. intros [= <-].
    destruct (distractor_set_with_correct _ _ _ Hset) as [Hfour Hnodup].
    assert (shuffled w (format_choice
                          (Potion.first_unit Potion.unit_patterns (lower answer))
                          <$> correct :: ds)
            ≡ₚ format_choice (Potion.first_unit Potion.unit_patterns (lower answer))
                 <$> correct :: ds) as Hperm by apply Hw.
    exists correct, rest, ds.
    split; [done|]. split; [done|]. split; [done|]. split.
    + by rewrite Hperm, length_fmap.
    + pose proof (format_choice_inj
                    (Potion.first_unit Potion.unit_patterns (lower answer))) as Hinj.
      rewrite Hperm. by apply (NoDup_fmap_2 _).
Qed.

Lemma distractors_three_distinct_within_ceiling_witness :
  exists correct rest ds,
    extract_numbers "7 potions" = correct :: rest
    ∧ distractor_set correct (grade_limit 1) ds
    ∧ ["12 potions"; "1 potions"; "9 potions"]
      = format_choice (Server.first_unit (split "7 potions")) <$> ds
    ∧ length ["12 potions"; "1 potions"; "9 potions"] = 3%nat
    ∧ NoDup ["12 potions"; "1 potions"; "9 potions"].
Proof.
  apply (proj1 (distractors_three_distinct_within_ceiling plain_world
                  "Add 3 and 4 potions" "7 potions" 1
                  ["12 potions"; "1 potions"; "9 potions"] admissible_plain_world)).
  vm_compute. reflexivity.
Defined.

(** If the pool and the acceptable candidates make three values or more,
    and every offset whose candidate is acceptable and not yet in the pool
    is drawn at some point, the loop ends. *)
Lemma backfill_ends (rnd : list nat) (correct : Z) (lim : limit) (pool : gset Z) :
  (3 <= size (pool ∪ acceptable_candidates correct lim))%nat ->
  (forall offset, offset ∈ offsets -> acceptable correct lim (correct + offset) ->
     correct + offset ∈ pool ∨ exists i, i ∈ rnd ∧ random_choice i offsets = offset) ->
  exists pool', backfill rnd correct lim pool = Returns pool'.
Proof.
  revert pool. induction rnd as [|i rnd IH]; intros pool Hsize Hdrawn.
  - assert (acceptable_candidates correct lim ⊆ pool) as Hsub.
    { intros d Hd. unfold acceptable_candidates in Hd.
      apply elem_of_list_to_set, list_elem_of_filter in Hd as [Hacc Hd].
      apply list_elem_of_fmap in Hd as (offset & -> & Hoffset).
      destruct (Hdrawn offset Hoffset Hacc) as [?|(j & Hj & _)]; [done|].
      by apply elem_of_nil in Hj. }
    assert (pool ∪ acceptable_candidates correct lim = pool) as Heq.
    { rewrite (comm_L (∪)). by apply subseteq_union_1_L. }
    rewrite Heq in Hsize. exists pool. by apply backfill_enough.
  - destruct (decide (3 <= size pool)%nat) as [Henough|Hfew].
    { exists pool. by apply backfill_enough. }
    cbn [backfill]. rewrite decide_True by lia.
    case_decide as Hacc.
    + apply IH.
      * assert (correct + random_choice i offsets ∈ acceptable_candidates correct lim) as Hin.
        { unfold acceptable_candidates.
          apply elem_of_list_to_set, list_elem_of_filter. split; [done|].
          apply list_elem_of_fmap. eexists. split; [done|].
          apply random_choice_offsets. }
        assert ({[correct + random_choice i offsets]} ∪ pool
                  ∪ acceptable_candidates correct lim
                = pool ∪ acceptable_candidates correct lim) as ->.
        { rewrite <-(assoc_L (∪)). apply subseteq_union_1_L.
          by apply singleton_subseteq_l, elem_of_union_r. }
        done.
      * intros offset Hoffset Hok.
        destruct (Hdrawn offset Hoffset Hok) as [?|(j & Hj & Heq)];
          [left; by apply elem_of_union_r|].
        apply elem_of_cons in Hj as [->|Hj].
        -- left. rewrite Heq. by apply elem_of_union_l, elem_of_singleton.
        -- right. by exists j.
    + apply IH; [done|].
      intros offset Hoffset Hok.
      destruct (Hdrawn offset Hoffset Hok) as [?|(j & Hj & Heq)]; [by left|].
      apply elem_of_cons in Hj as [->|Hj].
      * rewrite Heq in Hacc. by destruct Hacc.
      * right. by exists j.
Qed.

(** In particular, after draws that go through the seven offsets, the
    loop has ended whenever three values are available. *)
Lemma backfill_ends_after_all_offsets (rnd : list nat) (correct : Z) (lim : limit)
    (pool : gset Z) :
  (3 <= size (pool ∪ acceptable_candidates correct lim))%nat ->
  exists pool', backfill ([0; 1; 2; 3; 4; 5; 6]%nat ++ rnd) correct lim pool = Returns pool'.
Proof.
  intros Hsize. apply backfill_ends; [done|].
  intros offset Hoffset _. right.
  apply list_elem_of_lookup_1 in Hoffset as [k Hk].
  assert (k < 7)%nat as Hlt by (by apply lookup_lt_Some in Hk).
  exists k. split.
  - apply elem_of_app. left.
    change [0; 1; 2; 3; 4; 5; 6]%nat with (seq 0 7). apply elem_of_seq. lia.
  - unfold random_choice. change (length offsets) with 7%nat.
    rewrite Nat.mod_small by done. by apply list_lookup_total_correct.
Qed.

Lemma backfill_spins_at_40 (rnd : list nat) (pool : gset Z) :
  pool = {[1; 20]} -> backfill rnd 40 (Finite 20) pool = Spinning.
Proof.
  intros ->. apply backfill_spins; [by vm_compute|].
  intros offset Hoffset. unfold offsets in Hoffset.
  repeat (apply elem_of_cons in Hoffset as [->|Hoffset];
          [unfold acceptable; simpl; lia|]).
  by apply elem_of_nil in Hoffset.
Qed.

(** The first steps of both synthesizers on that question: the numbers
    read, the operation classified, the ceiling looked up. *)
Ltac read_sum_of_twenties :=
  change (extract_numbers "40") with [40];
  change (extract_numbers "What is the sum of 20 and 20?") with [20; 20];
  change (classified "What is the sum of 20 and 20?" [20; 20])
    with (Ok (A:=string) "addition");
  change (grade_limit 1) with (Finite 20);
  cbv beta iota zeta.

Lemma server_spins_above_ceiling (w : world) :
  Server.generate_smart_distractors w "What is the sum of 20 and 20?" "40" 1 = Spinning.
Proof.
  unfold Server.generate_smart_distractors, Server.final_distractors.
  read_sum_of_twenties.
  by rewrite backfill_spins_at_40 by (by vm_compute).
Qed.

Lemma potion_spins_above_ceiling (w : world) :
  Potion.generate_smart_distractors w "What is the sum of 20 and 20?" "40" 1 = Spinning.
Proof.
  unfold Potion.generate_smart_distractors, Potion.final_distractors.
  read_sum_of_twenties.
  by rewrite backfill_spins_at_40 by (by vm_compute).
Qed.

(** The batch driver reaches that loop: the question passes every check,
    its choices are trivial, and the regeneration never returns. *)
Example batch_spins_above_ceiling
    (md5 : string -> string) (w : world) (now : string) :
  improve_question md5 w now ∅ (written sum_of_twenties) = Spinning.
Proof.
  unfold improve_question.
  change (read_question (written sum_of_twenties)) with (Ok sum_of_twenties).
  cbv beta iota.
  assert (exists h, create_question_hash md5 (question_text sum_of_twenties)
                      (choices sum_of_twenties) = Ok h) as [h ->]
    by (eexists; reflexivity).
  rewrite decide_False by apply not_elem_of_empty.
  change (validation_checks sum_of_twenties) with (Ok (@None string)).
  unfold improved_choices.
  change (has_trivial_distractors (choices sum_of_twenties)) with true.
  cbv beta iota.
  change (question_text sum_of_twenties) with (Some "What is the sum of 20 and 20?").
  change (correct_answer sum_of_twenties) with (Some "40").
  change (grade sum_of_twenties) with 1.
  unfold generate_smart_distractors_on.
  by rewrite potion_spins_above_ceiling.
Qed.

(** C2. The specification expects the backfill loop to end for every
    correct value and every ceiling. At grade 1 (ceiling 20), for the
    question "What is the sum of 20 and 20?" with the answer 40, the
    filtered pool is {1, 20} and every candidate 40 + offset exceeds the
    ceiling: the loop never ends, whatever is drawn, in both files. *)
Theorem backfill_never_ends_above_ceiling (w : world) :
  Server.generate_smart_distractors w "What is the sum of 20 and 20?" "40" 1 = Spinning
  ∧ Potion.generate_smart_distractors w "What is the sum of 20 and 20?" "40" 1 = Spinning.
Proof.
  split; [apply server_spins_above_ceiling | apply potion_spins_above_ceiling].
Qed.

(** C9, as the specification states it, fails for the service: its
    addition branch adds the quotient only when the first number is at
    least the second. For "Add 3 and 4" with the answer 7 the quotient 0
    is not in the pool. *)
Lemma server_pool_misses_quotient :
  ¬ (forall (text : string) (numbers : list Z) (correct n0 n1 : Z) (rest : list Z),
       classified text numbers = Ok "addition" ->
       numbers = n0 :: n1 :: rest ->
       n1 ≠ 0 ->
       (n0 * n1 ∈ Server.candidate_pool "addition" numbers correct
        ∧ n0 / n1 ∈ Server.candidate_pool "addition" numbers correct)
       ∧ (n0 * n1 ∈ Potion.candidate_pool "addition" numbers correct
          ∧ n0 / n1 ∈ Potion.candidate_pool "addition" numbers correct)).
Proof.
  intros H.
  destruct (H "Add 3 and 4" [3; 4] 7 3 4 [] eq_refl eq_refl ltac:(lia)) as [[_ Hq] _].
  revert Hq. by vm_compute.
Qed.

(** C9, amended. For a problem classified as addition whose first two
    numbers are n0 and n1 with n1 ≠ 0: the pool of the batch driver
    contains n0 × n1 and n0 ÷ n1; the pool of the service contains
    n0 × n1, and n0 ÷ n1 when n1 ≤ n0. *)
Theorem addition_pool_product_and_quotient
    (text : string) (numbers : list Z) (correct n0 n1 : Z) (rest : list Z) :
  classified text numbers = Ok "addition" ->
  numbers = n0 :: n1 :: rest ->
  n1 ≠ 0 ->
  (n0 * n1 ∈ Potion.candidate_pool "addition" numbers correct
   ∧ n0 / n1 ∈ Potion.candidate_pool "addition" numbers correct)
  ∧ n0 * n1 ∈ Server.candidate_pool "addition" numbers correct
  ∧ (n1 <= n0 -> n0 / n1 ∈ Server.candidate_pool "addition" numbers correct).
Proof.
  intros _ -> Hn1.
  unfold Potion.candidate_pool, Server.candidate_pool,
    Potion.error_patterns, Server.error_patterns.
  rewrite !decide_True by done.
  repeat split.
  - set_solver.
  - set_solver.
  - set_solver.
  - intros Hle. rewrite decide_True by done. set_solver.
Qed.

Lemma addition_pool_product_and_quotient_witness :
  (12 * 4 ∈ Potion.candidate_pool "addition" [12; 4] 16
   ∧ 12 / 4 ∈ Potion.candidate_pool "addition" [12; 4] 16)
  ∧ 12 * 4 ∈ Server.candidate_pool "addition" [12; 4] 16
  ∧ (4 <= 12 -> 12 / 4 ∈ Server.candidate_pool "addition" [12; 4] 16).
Proof.
  apply (addition_pool_product_and_quotient "Add 12 and 4" [12; 4] 16 12 4 []);
    [reflexivity | reflexivity | lia].
Defined.

(** ** Grades outside the table *)

(** C10. For a grade that is none of 1 to 6 the ceiling is infinite: the
    filter of the synthesizer keeps every positive member of the pool
    other than the correct value, the backfill accepts every positive
    candidate other than the correct value, and the grade-limit check of
    the batch driver finds no number too large. *)
Theorem grade_outside_table_has_no_ceiling (g : Z) :
  g < 1 ∨ 6 < g ->
  grade_limit g = Infinity
  ∧ (forall (correct : Z) (pool : gset Z) (d : Z),
       d ∈ remove_invalid correct (grade_limit g) pool <-> d ∈ pool ∧ 0 < d ∧ d ≠ correct)
  ∧ (forall candidate correct : Z,
       acceptable correct (grade_limit g) candidate <-> 0 < candidate ∧ candidate ≠ correct)
  ∧ (forall numbers : list Z, exceeds_limit (grade_limit g) numbers = false).
Proof.
  intros Hg.
  assert (grade_limit g = Infinity) as Hinf.
  { unfold grade_limit, grade_limits.
    rewrite !lookup_insert_ne by lia. by rewrite lookup_singleton_ne by lia. }
  rewrite Hinf. split; [done|]. split; [|split].
  - intros correct pool d. rewrite remove_invalid_spec. simpl. tauto.
  - intros candidate correct. unfold acceptable. simpl. tauto.
  - intros numbers. unfold exceeds_limit.
    induction numbers as [|num numbers IH]; [done|].
    cbn [existsb]. rewrite IH, orb_false_r. apply bool_decide_eq_false.
    simpl. tauto.
Qed.

Lemma grade_outside_table_has_no_ceiling_witness :
  grade_limit 7 = Infinity
  ∧ (forall (correct : Z) (pool : gset Z) (d : Z),
       d ∈ remove_invalid correct (grade_limit 7) pool <-> d ∈ pool ∧ 0 < d ∧ d ≠ correct)
  ∧ (forall candidate correct : Z,
       acceptable correct (grade_limit 7) candidate <-> 0 < candidate ∧ candidate ≠ correct)
  ∧ (forall numbers : list Z, exceeds_limit (grade_limit 7) numbers = false).
Proof. apply (grade_outside_table_has_no_ceiling 7). lia. Defined.

(** ** Full-question assembly *)

Lemma lstrip_no_leading_space (s : string) : no_leading_space (lstrip s).
Proof.
  induction s as [|c s IH]; simpl; [done|].
  by destruct (is_space c) eqn:Hc.
Qed.

Lemma lstrip_fixed (s : string) : no_leading_space s -> lstrip s = s.
Proof. destruct s as [|c s]; simpl; [done|]. by intros ->. Qed.

Lemma rstrip_no_leading_space (s : string) :
  no_leading_space s -> no_leading_space (rstrip s).
Proof.
  destruct s as [|c s]; simpl; [done|]. intros Hc.
  destruct (rstrip s); [by rewrite Hc | done].
Qed.

Lemma rstrip_idem (s : string) : rstrip (rstrip s) = rstrip s.
Proof.
  induction s as [|c s IH]; simpl; [done|].
  destruct (rstrip s) as [|c' r] eqn:Hr.
  - destruct (is_space c) eqn:Hc; simpl; [done | by rewrite Hc].
  - cbn [rstrip]. cbn [rstrip] in IH. rewrite IH.
    by destruct r.
Qed.

Lemma strip_idem (s : string) : strip (strip s) = strip s.
Proof.
  unfold strip.
  rewrite (lstrip_fixed (rstrip (lstrip s))).
  - apply rstrip_idem.
  - apply rstrip_no_leading_space, lstrip_no_leading_space.
Qed.

Lemma strip_clean_choice_text (s : string) :
  strip (clean_choice_text s) = clean_choice_text s.
Proof. apply strip_idem. Qed.


Lemma all_texts_Some (l : list (option string)) (texts : list string) :
  all_texts l = Some texts -> l = Some <$> texts.
Proof.
  revert texts. induction l as [|[t|] l IH]; intros texts; simpl;
    [by intros [= <-] | | done].
  destruct (all_texts l) as [ts|]; [|done].
  intros [= <-]. simpl. f_equal. by apply IH.
Qed.

Lemma clean_texts (texts : list string) :
  comprehension clean_choice_text_on (Some <$> texts) = Ok (clean_choice_text <$> texts).
Proof.
  induction texts as [|t texts IH]; [done|]. rewrite !fmap_cons.
  cbn [comprehension clean_choice_text_on mbind result_bind]. by rewrite IH.
Qed.

Lemma clean_texts_inv (chs : list (option string)) (cleaned : list string) :
  comprehension clean_choice_text_on chs = Ok cleaned ->
  exists texts, chs = Some <$> texts ∧ cleaned = clean_choice_text <$> texts.
Proof.
  revert cleaned. induction chs as [|[t|] chs IH]; intros cleaned; simpl.
  - intros [= <-]. by exists [].
  - destruct (comprehension clean_choice_text_on chs) as [ys|]; [|done].
    intros [= <-]. destruct (IH ys eq_refl) as (texts & -> & ->).
    by exists (t :: texts).
  - done.
Qed.



Lemma py_sorted_texts_inv (l sorted_l : list (option string)) :
  py_sorted_texts l = Ok sorted_l ->
  (exists texts, l = Some <$> texts) ∨ l = [None].
Proof.
  intros Hsorted. destruct l as [|first [|second l]].
  - left. by exists [].
  - destruct first as [t|]; [left; by exists [t] | by right].
  - left. unfold py_sorted_texts in Hsorted.
    destruct (all_texts (first :: second :: l)) as [ts|] eqn:Hall.
    + exists ts. by apply all_texts_Some.
    + by destruct first.
Qed.


Lemma question_hash_inv (md5 : string -> string) (question_text : option string)
    (chs : list (option string)) (h : string) :
  create_question_hash md5 question_text chs = Ok h ->
  exists text texts, question_text = Some text ∧ chs = Some <$> texts.
Proof.
  unfold create_question_hash.
  destruct question_text as [text|]; simpl; [|done].
  destruct (py_sorted_texts chs) as [sorted_chs|] eqn:Hsorted; simpl; [|done].
  destruct (py_sorted_texts_inv _ _ Hsorted) as [[texts ->]| ->].
  - intros _. by exists text, texts.
  - injection Hsorted as <-. done.
Qed.

(** The labelling loop on four choices or fewer, for an answer that has
    text: every choice gets its label, and the key is the label of the
    last choice equal to the answer, or the key it started with. *)
Lemma label_choices_ok (cleaned : list string) (correct_answer : string) :
  forall (i : nat) (acc : list (string * string)) (key : option string),
    (i + length cleaned <= 4)%nat ->
    exists key',
      label_choices i cleaned (Some correct_answer) acc key
      = Ok (acc ++ zip (drop i choice_labels) cleaned, key')
      ∧ ((key' = key
          ∧ forall c, c ∈ cleaned -> strip c ≠ strip (clean_choice_text correct_answer))
         ∨ exists (j : nat) (c label : string),
             cleaned !! j = Some c ∧ strip c = strip (clean_choice_text correct_answer)
             ∧ choice_labels !! (i + j)%nat = Some label ∧ key' = Some label
             ∧ forall (j' : nat) (c' : string),
                 (j < j')%nat -> cleaned !! j' = Some c' ->
                 strip c' ≠ strip (clean_choice_text correct_answer)).
Proof.
  set (answer := clean_choice_text correct_answer).
  induction cleaned as [|c cleaned IH]; intros i acc key Hlen.
  - exists key. split.
    + simpl. by rewrite zip_with_nil_r, app_nil_r.
    + left. split; [done|]. intros c Hc. by apply elem_of_nil in Hc.
  - simpl in Hlen.
    destruct (lookup_lt_is_Some_2 choice_labels i ltac:(simpl; lia)) as [label Hlabel].
    cbn [label_choices]. unfold py_index at 1. rewrite Hlabel.
    cbn [mbind result_bind clean_choice_text_on]. fold answer.
    destruct (IH (S i) (acc ++ [(label, c)])
                (if decide (strip c = strip answer) then Some label else key)
                ltac:(lia)) as (key' & -> & Hkey).
    exists key'. split.
    + rewrite <-app_assoc. do 2 f_equal.
      rewrite (drop_S _ _ _ Hlabel). done.
    + destruct Hkey as [[-> Hrest]|(j & c' & label' & Hj & Hc' & Hl & -> & Hlast)].
      * case_decide as Hmatch.
        -- right. exists 0%nat, c, label. rewrite Nat.add_0_r.
           repeat split; try done.
           intros j' c' Hj' Hlook. destruct j' as [|j']; [lia|].
           apply Hrest. by eapply list_elem_of_lookup_2.
        -- left. split; [done|]. intros x Hx.
           apply elem_of_cons in Hx as [->|Hx]; auto.
      * right. exists (S j), c', label'.
        rewrite <-Nat.add_succ_comm. repeat split; try done.
        intros j' x Hj' Hlook. destruct j' as [|j']; [lia|].
        apply (Hlast j'); [lia | done].
Qed.


(** The assembly of one to four choices succeeds when the choices and
    the answer have text, with the key on the matching choice or the
    answer forced into choice A. *)
Lemma assemble_ok (now : string) (q : question) (texts : list string) (answer : string) :
  correct_answer q = Some answer ->
  (1 <= length texts <= 4)%nat ->
  exists elem,
    assemble now q (Some <$> texts) = Ok elem
    ∧ answer_key_reconciled (clean_choice_text <$> texts) (clean_choice_text answer) elem.
Proof.
  intros Hq Hlen. unfold assemble. rewrite clean_texts, Hq.
  cbn [mbind result_bind clean_choice_text_on].
  set (cleaned := clean_choice_text <$> texts).
  set (cleaned_answer := clean_choice_text answer).
  assert (length cleaned = length texts) as Hlen' by apply length_fmap.
  assert (forall c, c ∈ cleaned -> strip c = c) as Hclean.
  { intros c Hc. apply list_elem_of_fmap in Hc as (x & -> & _).
    apply strip_clean_choice_text. }
  assert (strip cleaned_answer = cleaned_answer) as Hanswer by apply strip_clean_choice_text.
  destruct (label_choices_ok cleaned answer 0 [] None ltac:(lia))
    as (key' & -> & Hkey).
  fold cleaned_answer in Hkey.
  cbn [mbind result_bind app drop].
  destruct Hkey as [[-> Hnone]|(j & c & label & Hj & Hc & Hl & -> & Hlast)].
  - destruct cleaned as [|c0 cleaned'] eqn:Hcleaned; [simpl in Hlen'; lia|].
    cbn [zip zip_with choice_labels set_first_text mbind result_bind].
    eexists. split; [reflexivity|]. split; [done|]. split.
    + intros [j Hj]. apply list_elem_of_lookup_2 in Hj.
      by destruct (Hnone _ Hj).
    + intros _. done.
  - assert (c = cleaned_answer) as ->.
    { rewrite <-Hanswer, <-Hc. symmetry. apply Hclean.
      by eapply list_elem_of_lookup_2. }
    eexists. split; [reflexivity|]. split; [done|]. split.
    + intros _. exists j, label. repeat split; try done.
      intros j' Hj' Hlook. by apply (Hlast j' cleaned_answer Hj' Hlook).
    + intros Hnot. destruct Hnot. by eapply list_elem_of_lookup_2.
Qed.


Example fifth_choice_message :
  exists question_hash,
    create_question_hash (fun s => s) (question_text five_choice_question)
      (choices five_choice_question) = Ok question_hash
    ∧ improve_question (fun s => s) plain_world "now" ∅ (written five_choice_question)
      = Returns ({[question_hash]} ∪ ∅,
                 (None, "Processing error: list index out of range")).
Proof. eexists. split; vm_compute; reflexivity. Qed.

(** A question whose [correctAnswer] element is empty passes the math
    check, which cannot read the answer, and is deleted by the assembly
    when the labelling loop cleans the answer. *)
Example empty_answer_message :
  validation_checks empty_answer_question = Ok None
  ∧ exists question_hash,
      create_question_hash (fun s => s) (question_text empty_answer_question)
        (choices empty_answer_question) = Ok question_hash
      ∧ improve_question (fun s => s) plain_world "now" ∅ (written empty_answer_question)
        = Returns ({[question_hash]} ∪ ∅,
                   (None, "Processing error: 'NoneType' object has no attribute 'strip'")).
Proof. split; [reflexivity|]. eexists. split; vm_compute; reflexivity. Qed.



(** * Further properties of the code *)

(** ** Numbers and their decimal texts *)

Lemma digit_value_range (c : ascii) : is_digit c = true -> 0 <= digit_value c <= 9.
Proof.
  unfold is_digit, in_range, digit_value. rewrite andb_true_iff, !N.leb_le. lia.
Qed.

Lemma int_of_digits_go_nonneg (s : string) (acc : Z) :
  0 <= acc -> all_chars is_digit s = true -> 0 <= int_of_digits_go acc s.
Proof.
  revert acc. induction s as [|c s IH]; intros acc Hacc Hall; [done|].
  simpl in Hall. apply andb_true_iff in Hall as [Hc Hall].
  simpl. apply IH; [|done]. pose proof (digit_value_range c Hc). lia.
Qed.

Lemma extracted_nonneg (text : string) (n : Z) :
  n ∈ extract_numbers text -> 0 <= n.
Proof.
  unfold extract_numbers. intros Hn.
  apply list_elem_of_fmap in Hn as (w & -> & Hw).
  apply list_elem_of_filter in Hw as [Hdigits _].
  by apply int_of_digits_go_nonneg.
Qed.

(** X1. [extract_numbers] reads no sign: every number it returns is
    non-negative, and so is the correct value the synthesizer starts
    from. *)
Theorem extract_numbers_nonnegative (text : string) :
  Forall (fun n => 0 <= n) (extract_numbers text)
  ∧ forall correct rest, extract_numbers text = correct :: rest -> 0 <= correct.
Proof.
  split.
  - apply Forall_forall. intros n Hn. by apply (extracted_nonneg text).
  - intros correct rest Heq. apply (extracted_nonneg text). rewrite Heq. by left.
Qed.

Lemma extract_numbers_nonnegative_witness :
  Forall (fun n => 0 <= n) (extract_numbers "It is -5 degrees, not 12")
  ∧ 0 <= 5.
Proof.
  split.
  - apply (proj1 (extract_numbers_nonnegative "It is -5 degrees, not 12")).
  - apply (proj2 (extract_numbers_nonnegative "It is -5 degrees, not 12") 5 [12]).
    reflexivity.
Defined.

Lemma int_of_uint_acc (d : Decimal.uint) (acc : positive) :
  int_of_digits_go (Z.pos acc) (NilEmpty.string_of_uint d) = Z.pos (Pos.of_uint_acc d acc).
Proof.
  revert acc. induction d as [|d IH|d IH|d IH|d IH|d IH|d IH|d IH|d IH|d IH|d IH];
    intros acc; [done|..];
    cbn [NilEmpty.string_of_uint int_of_digits_go Pos.of_uint_acc];
    rewrite <-IH; f_equal; unfold digit_value, code; simpl; lia.
Qed.

Lemma int_of_uint (d : Decimal.uint) :
  int_of_digits_go 0 (NilEmpty.string_of_uint d) = Z.of_N (Pos.of_uint d).
Proof.
  induction d as [|d IH|d IH|d IH|d IH|d IH|d IH|d IH|d IH|d IH|d IH];
    [done | exact IH | ..];
    cbn [NilEmpty.string_of_uint int_of_digits_go Pos.of_uint];
    apply (int_of_uint_acc d).
Qed.

Lemma uint_all_digits (d : Decimal.uint) :
  all_chars is_digit (NilEmpty.string_of_uint d) = true.
Proof. induction d; simpl; auto. Qed.

Lemma str_of_pos (p : positive) :
  str_of_Z (Z.pos p) = NilEmpty.string_of_uint (Pos.to_uint p).
Proof.
  unfold str_of_Z. simpl. unfold NilZero.string_of_uint.
  pose proof (DecimalPos.Unsigned.to_uint_nonnil p).
  by destruct (Pos.to_uint p).
Qed.

(** The decimal text of a non-negative integer: digits only, not empty,
    and read back as the integer. *)
Lemma str_of_Z_digits (n : Z) :
  0 <= n ->
  all_chars is_digit (str_of_Z n) = true
  ∧ str_of_Z n ≠ ""
  ∧ int_of_digits (str_of_Z n) = n.
Proof.
  intros Hn. destruct n as [|p|p]; [done| |lia].
  rewrite str_of_pos. split; [apply uint_all_digits|]. split.
  - pose proof (DecimalPos.Unsigned.to_uint_nonnil p).
    by destruct (Pos.to_uint p).
  - unfold int_of_digits. rewrite int_of_uint.
    by rewrite DecimalPos.Unsigned.of_to.
Qed.

(** ** Runs of characters *)

Lemma string_of_rev_rev (s : string) :
  string_of_list_ascii (rev (rev (list_ascii_of_string s))) = s.
Proof. by rewrite rev_involutive, string_of_list_ascii_of_string. Qed.

Lemma runs_go_app (p : ascii -> bool) (a b : string) (cur : list ascii) :
  all_chars p a = true ->
  runs_go p cur (a +:+ b) = runs_go p (rev (list_ascii_of_string a) ++ cur) b.
Proof.
  revert cur. induction a as [|c a IH]; intros cur Hall; [done|].
  simpl in Hall. apply andb_true_iff in Hall as [Hc Hall].
  change (String c a +:+ b) with (String c (a +:+ b)).
  cbn [runs_go list_ascii_of_string rev]. rewrite Hc, IH by done.
  by rewrite <-app_assoc.
Qed.

(** A run at the start of a text, followed by nothing or by a character
    outside the class, is the first run of the text. *)
Lemma runs_first (p : ascii -> bool) (a rest : string) :
  a ≠ "" -> all_chars p a = true ->
  rest = "" ∨ (exists c r, rest = String c r ∧ p c = false) ->
  runs p (a +:+ rest) = a :: runs p rest.
Proof.
  intros Hne Hall Hrest. unfold runs. rewrite runs_go_app by done.
  rewrite app_nil_r.
  assert (flush (rev (list_ascii_of_string a)) = [a]) as Hflush.
  { unfold flush. destruct (rev (list_ascii_of_string a)) as [|x l] eqn:Hrev.
    - apply (f_equal (@rev ascii)) in Hrev. rewrite rev_involutive in Hrev.
      simpl in Hrev. destruct a; [done | discriminate Hrev].
    - by rewrite <-Hrev, string_of_rev_rev. }
  destruct Hrest as [->|(c & r & -> & Hc)].
  - done.
  - cbn [runs_go]. by rewrite Hc, Hflush.
Qed.

Lemma digits_are_words (s : string) :
  all_chars is_digit s = true -> all_chars is_word s = true.
Proof.
  induction s as [|c s IH]; [done|]. simpl.
  rewrite !andb_true_iff. intros [Hc Hs]. split; [|auto].
  unfold is_word. by rewrite Hc.
Qed.

Lemma read_back (unit : string) (n : Z) :
  0 <= n ->
  unit = "" ∨ (exists c r, unit = String c r ∧ is_word c = false) ->
  extract_numbers (format_choice unit n) = n :: extract_numbers unit.
Proof.
  intros Hn Hunit. destruct (str_of_Z_digits n Hn) as (Hdigits & Hne & Hint).
  unfold extract_numbers, format_choice, word_runs.
  rewrite (runs_first is_word) by (done || by apply digits_are_words).
  rewrite filter_cons_True by done.
  by rewrite fmap_cons, Hint.
Qed.

(** The same for the first integer the triviality detector reads. *)
Lemma formatted_choice_first_integer (unit : string) (n : Z) :
  0 <= n ->
  unit = "" ∨ (exists c r, unit = String c r ∧ is_digit c = false) ->
  first_integer (format_choice unit n) = Some n.
Proof.
  intros Hn Hunit. destruct (str_of_Z_digits n Hn) as (Hdigits & Hne & Hint).
  unfold first_integer, format_choice, digit_runs.
  rewrite (runs_first is_digit) by done.
  simpl. by rewrite Hint.
Qed.

(** X2. A formatted choice is read back: for a non-negative value and a
    unit that is empty or starts outside the word characters,
    [extract_numbers] finds the value first, then the numbers of the
    unit, and the first integer the triviality detector reads is the
    value. *)
Theorem formatted_choice_read_back (unit : string) (n : Z) :
  0 <= n ->
  unit = "" ∨ (exists c r, unit = String c r ∧ is_word c = false) ->
  extract_numbers (format_choice unit n) = n :: extract_numbers unit
  ∧ first_integer (format_choice unit n) = Some n.
Proof.
  intros Hn Hunit. split; [by apply read_back|].
  apply formatted_choice_first_integer; [done|].
  destruct Hunit as [->|(c & r & -> & Hc)]; [by left|].
  right. exists c, r. split; [done|].
  unfold is_word in Hc. by destruct (is_digit c).
Qed.

Lemma formatted_choice_read_back_witness :
  extract_numbers (format_choice " potions" 12) = 12 :: extract_numbers " potions"
  ∧ first_integer (format_choice " potions" 12) = Some 12.
Proof.
  apply (formatted_choice_read_back " potions" 12); [lia|].
  right. by exists " "%char, "potions".
Defined.

(** ** The validator and the sign of the computed value *)

Lemma classifier_never_raises (text : string) (numbers : list Z) :
  exists r, detect_operation_and_calculate text numbers = Ok r.
Proof.
  unfold detect_operation_and_calculate.
  case_decide as Hlen; [eauto|].
  destruct (at_least_two numbers Hlen) as (n0 & n1 & rest & ->). simpl.
  repeat (match goal with
          | |- context [if ?b then _ else _] => destruct b
          end; simpl; eauto).
  unfold py_floordiv. case_decide; [done | eauto].
Qed.

(** X3. The validator passes every answer that starts with the value the
    classifier computes, when that value is not negative; and when the
    computed value is negative it fails every answer that holds a
    number, because an extracted number is never negative. *)
Theorem validator_and_sign (text : string) (chs : list (option string)) (expected : Z)
    (operation : string) :
  detect_operation_and_calculate text (extract_numbers text) = Ok (Some expected, operation) ->
  (0 <= expected ->
   forall unit, unit = "" ∨ (exists c r, unit = String c r ∧ is_word c = false) ->
     validate_math_comprehensive (Some text) chs (Some (format_choice unit expected))
     = (true, "Math correct: " +:+ operation))
  ∧ (expected < 0 ->
     forall answer, extract_numbers answer ≠ [] ->
       (validate_math_comprehensive (Some text) chs (Some answer)).1 = false).
Proof.
  intros Hdetect. split.
  - intros Hpos unit Hunit.
    unfold validate_math_comprehensive, validate_math_comprehensive_body. simpl.
    rewrite Hdetect. simpl. rewrite (read_back unit expected Hpos Hunit).
    simpl. by rewrite decide_True.
  - intros Hneg answer Hanswer.
    unfold validate_math_comprehensive, validate_math_comprehensive_body. simpl.
    rewrite Hdetect. simpl.
    destruct (extract_numbers answer) as [|a rest] eqn:Hnumbers; [done|].
    assert (0 <= a) as Ha.
    { apply (extracted_nonneg answer). rewrite Hnumbers. by left. }
    simpl. rewrite decide_False by lia. done.
Qed.

Lemma validator_and_sign_witness :
  validate_math_comprehensive (Some "Mia has 15 vials and gives 9 away. How many are left?") []
    (Some (format_choice " vials" 6))
  = (true, "Math correct: " +:+ "subtraction").
Proof.
  apply (proj1 (validator_and_sign
                  "Mia has 15 vials and gives 9 away. How many are left?" [] 6 "subtraction"
                  eq_refl)); [lia|].
  right. by exists " "%char, "vials".
Defined.

(** ** More on the classifier *)

Lemma py_max_min_perm (l l' : list Z) (hi lo : Z) :
  l ≡ₚ l' -> py_max l = Ok hi -> py_min l = Ok lo ->
  py_max l' = Ok hi ∧ py_min l' = Ok lo.
Proof.
  intros Hperm Hhi Hlo.
  destruct l as [|x l]; [done|]. destruct l' as [|x' l'].
  { by apply Permutation_nil_r in Hperm. }
  injection Hhi as <-. injection Hlo as <-.
  destruct (foldl_max_spec l x) as [Hmax_in Hmax].
  destruct (foldl_min_spec l x) as [Hmin_in Hmin].
  destruct (foldl_max_spec l' x') as [Hmax_in' Hmax'].
  destruct (foldl_min_spec l' x') as [Hmin_in' Hmin'].
  simpl. split; f_equal.
  - rewrite <-Hperm in Hmax_in'. rewrite Hperm in Hmax_in.
    specialize (Hmax _ Hmax_in'). specialize (Hmax' _ Hmax_in). lia.
  - rewrite <-Hperm in Hmin_in'. rewrite Hperm in Hmin_in.
    specialize (Hmin _ Hmin_in'). specialize (Hmin' _ Hmin_in). lia.
Qed.

(** X4. The difference framing that the code reaches: for a text with
    "how many" and "need" and no addition keyword, the classifier returns
    subtraction with the largest number minus the smallest. The value is
    not negative, bounds every difference of two of the numbers, and is
    the same for every reordering of the numbers. *)
Theorem difference_framing_order_free (text : string) (numbers numbers' : list Z) :
  (2 <= length numbers)%nat ->
  numbers ≡ₚ numbers' ->
  any_in addition_words (lower text) = false ->
  contains "how many" (lower text) = true ->
  contains "need" (lower text) = true ->
  exists v,
    detect_operation_and_calculate text numbers = Ok (Some v, "subtraction")
    ∧ detect_operation_and_calculate text numbers' = Ok (Some v, "subtraction")
    ∧ 0 <= v
    ∧ (forall x y, x ∈ numbers -> y ∈ numbers -> x - y <= v)
    ∧ (exists x y, x ∈ numbers ∧ y ∈ numbers ∧ v = x - y).
Proof.
  intros Hlen Hperm Hnoadd Hmany Hneed.
  assert (forall l : list Z, (2 <= length l)%nat ->
            detect_operation_and_calculate text l
            = (hi ← py_max l; lo ← py_min l; Ok (Some (hi - lo), "subtraction"))) as Hrun.
  { intros l Hl. unfold detect_operation_and_calculate.
    case_decide; [lia|]. rewrite Hnoadd.
    rewrite (any_in_intro "need" subtraction_words _ ltac:(set_solver) Hneed).
    by rewrite Hmany, Hneed, orb_true_r. }
  destruct numbers as [|x l] eqn:Hnumbers; [simpl in Hlen; lia|].
  rewrite <-Hnumbers in *.
  assert (py_max numbers = Ok (foldl Z.max x l)) as Hhi by (by rewrite Hnumbers).
  assert (py_min numbers = Ok (foldl Z.min x l)) as Hlo by (by rewrite Hnumbers).
  destruct (py_max_min_perm _ _ _ _ Hperm Hhi Hlo) as [Hhi' Hlo'].
  destruct (foldl_max_spec l x) as [Hmax_in Hmax].
  destruct (foldl_min_spec l x) as [Hmin_in Hmin].
  rewrite <-Hnumbers in Hmax_in, Hmax, Hmin_in, Hmin.
  exists (foldl Z.max x l - foldl Z.min x l). split; [|split; [|split; [|split]]].
  - rewrite Hrun by done. by rewrite Hhi, Hlo.
  - rewrite Hrun by (by rewrite <-Hperm). by rewrite Hhi', Hlo'.
  - specialize (Hmax _ Hmin_in). lia.
  - intros a b Ha Hb. specialize (Hmax _ Ha). specialize (Hmin _ Hb). lia.
  - by exists (foldl Z.max x l), (foldl Z.min x l).
Qed.

Lemma difference_framing_order_free_witness :
  exists v,
    detect_operation_and_calculate "How many vials does Mia need with 9 of 15?" [9; 15]
    = Ok (Some v, "subtraction")
    ∧ detect_operation_and_calculate "How many vials does Mia need with 9 of 15?" [15; 9]
      = Ok (Some v, "subtraction")
    ∧ 0 <= v
    ∧ (forall x y, x ∈ [9; 15] -> y ∈ [9; 15] -> x - y <= v)
    ∧ (exists x y, x ∈ [9; 15] ∧ y ∈ [9; 15] ∧ v = x - y).
Proof.
  apply (difference_framing_order_free
           "How many vials does Mia need with 9 of 15?" [9; 15] [15; 9]);
    [simpl; lia | apply Permutation_swap | reflexivity..].
Defined.

(** X5. Keywords that never decide. A result of multiplication comes
    from "multiply", "times", "each", "per" or "groups of": the entries
    "needed" and "total" of the multiplication list are shadowed by
    "need" and by the addition list. A division outcome comes from a
    division keyword other than "each group", which "each" shadows. *)
Theorem shadowed_keywords (text : string) (numbers : list Z) (value : option Z)
    (operation : string) :
  detect_operation_and_calculate text numbers = Ok (value, operation) ->
  (operation = "multiplication" ->
   any_in ["multiply"; "times"; "each"; "per"; "groups of"] (lower text) = true
   ∧ contains "needed" (lower text) = false
   ∧ contains "total" (lower text) = false)
  ∧ (operation = "division" ∨ operation = "division_by_zero" ->
     any_in ["divide"; "split"; "equally"; "share"; "groups"; "evenly"; "among";
             "brew"; "make"] (lower text) = true
     ∧ contains "each group" (lower text) = false).
Proof.
  unfold detect_operation_and_calculate.
  case_decide as Hlen.
  { intros [= <- <-]. split; [done | by intros [|]]. }
  destruct (at_least_two numbers Hlen) as (n0 & n1 & rest & ->).
  destruct (any_in addition_words (lower text)) eqn:Hadd.
  { intros [= <- <-]. split; [done | by intros [|]]. }
  destruct (any_in subtraction_words (lower text)) eqn:Hsub.
  { destruct (_ || _); intros [= <- <-]; (split; [done | by intros [|]]). }
  assert (contains "total" (lower text) = false) as Htotal.
  { apply not_true_is_false. intros H.
    by rewrite (any_in_intro "total" addition_words _ ltac:(set_solver) H) in Hadd. }
  assert (contains "needed" (lower text) = false) as Hneeded.
  { apply not_true_is_false. intros H. apply needed_has_need in H.
    by rewrite (any_in_intro "need" subtraction_words _ ltac:(set_solver) H) in Hsub. }
  destruct (any_in multiplication_words (lower text)) eqn:Hmul.
  { assert (any_in ["multiply"; "times"; "each"; "per"; "groups of"] (lower text) = true).
    { unfold any_in, multiplication_words in *. cbn [existsb] in *.
      rewrite Hneeded, Htotal in Hmul. rewrite !orb_false_r in Hmul |- *.
      exact Hmul. }
    destruct (_ || _); intros [= <- <-]; (split; [done | by intros [|]]). }
  assert (contains "each group" (lower text) = false) as Hgroup.
  { apply not_true_is_false. intros H.
    apply (contains_part "" "each" " group") in H.
    by rewrite (any_in_intro "each" multiplication_words _ ltac:(set_solver) H) in Hmul. }
  destruct (any_in division_words (lower text)) eqn:Hdiv.
  - assert (any_in ["divide"; "split"; "equally"; "share"; "groups"; "evenly"; "among";
                    "brew"; "make"] (lower text) = true).
    { unfold any_in, division_words in *. cbn [existsb] in *.
      rewrite Hgroup in Hdiv. cbn [orb] in Hdiv. rewrite !orb_false_r in Hdiv |- *.
      exact Hdiv. }
    simpl. case_decide; simpl.
    + unfold py_floordiv. rewrite decide_False by done.
      intros [= <- <-]. split; [done | done].
    + intros [= <- <-]. split; [done | done].
  - intros [= <- <-]. split; [done | by intros [|]].
Qed.

Lemma shadowed_keywords_witness :
  any_in ["multiply"; "times"; "each"; "per"; "groups of"]
    (lower "Each of 4 shelves holds 6 vials") = true
  ∧ contains "needed" (lower "Each of 4 shelves holds 6 vials") = false
  ∧ contains "total" (lower "Each of 4 shelves holds 6 vials") = false.
Proof.
  apply (proj1 (shadowed_keywords "Each of 4 shelves holds 6 vials" [4; 6]
                  (Some 24) "multiplication" eq_refl)).
  reflexivity.
Defined.

(** ** More on the triviality detector *)

Lemma numeric_choices_all_texts (chs : list (option string)) :
  None ∉ chs ->
  numeric_choices chs = Ok (omap (fun choice => choice ≫= first_integer) chs).
Proof.
  induction chs as [|[text|] chs IH]; intros Hnone; [done| |].
  - cbn [numeric_choices findall_digits mbind result_bind omap list_omap option_bind].
    rewrite IH by (intros Hin; apply Hnone; by right).
    unfold first_integer. by destruct (digit_runs text).
  - destruct Hnone. by left.
Qed.

Lemma trivial_from_sorted (chs chs' : list (option string)) :
  None ∉ chs -> None ∉ chs' ->
  omap (fun choice => choice ≫= first_integer) chs
  ≡ₚ omap (fun choice => choice ≫= first_integer) chs' ->
  has_trivial_distractors chs = has_trivial_distractors chs'.
Proof.
  intros Hnone Hnone' Hperm.
  unfold has_trivial_distractors, has_trivial_distractors_body.
  rewrite !numeric_choices_all_texts by done. simpl.
  rewrite <-(Permutation_length Hperm).
  assert (py_sorted (omap (fun choice => choice ≫= first_integer) chs')
          = py_sorted (omap (fun choice => choice ≫= first_integer) chs)) as ->.
  { apply py_sorted_unique; [|apply (Sorted_merge_sort Z.le)].
    unfold py_sorted. by rewrite merge_sort_Permutation. }
  done.
Qed.

(** X6. The order of the choices does not matter to the triviality
    detector. *)
Theorem trivial_order_free (chs chs' : list (option string)) :
  chs ≡ₚ chs' -> has_trivial_distractors chs = has_trivial_distractors chs'.
Proof.
  intros Hperm.
  destruct (decide (None ∈ chs)) as [Hin|Hnone].
  - assert (None ∈ chs') as Hin' by (by rewrite <-Hperm).
    destruct (numeric_choices_none chs Hin) as [e He].
    destruct (numeric_choices_none chs' Hin') as [e' He'].
    unfold has_trivial_distractors, has_trivial_distractors_body.
    by rewrite He, He'.
  - apply trivial_from_sorted; [done | by rewrite <-Hperm | by rewrite Hperm].
Qed.

Lemma trivial_order_free_witness :
  has_trivial_distractors [Some "7 potions"; Some "5 potions"; Some "6 potions"]
  = has_trivial_distractors [Some "5 potions"; Some "6 potions"; Some "7 potions"].
Proof.
  apply (trivial_order_free [Some "7 potions"; Some "5 potions"; Some "6 potions"]
           [Some "5 potions"; Some "6 potions"; Some "7 potions"]).
  etrans; [apply Permutation_swap|]. apply Permutation_skip, Permutation_swap.
Defined.

(** ** More on the synthesizer *)

(** X7. Selection prefers the wrong-operation results: the final list is
    the first three of them (in pool order), followed by other members of
    the pool only when fewer than three of them are in the pool; so a
    wrong-operation result in the pool is always selected when the pool
    holds at most three of them. *)
Theorem selection_prefers_wrong_operations (wrong_ops : list (option Z)) (l : list Z) :
  let priority := filter (fun d => Some d ∈ wrong_ops) l in
  exists others,
    select_final wrong_ops l = take 3 priority ++ others
    ∧ (forall d, d ∈ others -> d ∈ l ∧ Some d ∉ wrong_ops)
    ∧ ((3 <= length priority)%nat -> others = [])
    ∧ ((length priority <= 3)%nat ->
       forall d, d ∈ l -> Some d ∈ wrong_ops -> d ∈ select_final wrong_ops l).
Proof.
  intros priority. unfold select_final. fold priority.
  set (rest := filter (fun d => d ∉ priority) l).
  assert (forall k d, d ∈ take k rest -> d ∈ l ∧ Some d ∉ wrong_ops) as Hrest.
  { intros k d Hd.
    assert (d ∈ rest) as Hd' by (eapply elem_of_sublist; [done | apply sublist_take]).
    apply list_elem_of_filter in Hd' as [Hnot Hin]. split; [done|].
    intros Hwrong. apply Hnot. by apply list_elem_of_filter. }
  assert (forall others, (length priority <= 3)%nat ->
            forall d, d ∈ l -> Some d ∈ wrong_ops -> d ∈ take 3 priority ++ others)
    as Hall.
  { intros others Hle d Hd Hwrong. apply elem_of_app. left.
    rewrite take_ge by done. by apply list_elem_of_filter. }
  case_decide as Hrem.
  - eexists. split; [done|]. split; [apply Hrest|]. split; [|apply Hall].
    intros Hthree. rewrite length_take in Hrem. lia.
  - exists []. rewrite app_nil_r. split; [done|]. split.
    + intros d Hd. by apply elem_of_nil in Hd.
    + split; [done|]. intros Hle d Hd Hwrong.
      specialize (Hall [] Hle d Hd Hwrong). by rewrite app_nil_r in Hall.
Qed.

Lemma selection_prefers_wrong_operations_witness :
  let priority := filter (fun d => Some d ∈ Potion.wrong_operations 3 4) [1; 12; 9; 5] in
  exists others,
    select_final (Potion.wrong_operations 3 4) [1; 12; 9; 5] = take 3 priority ++ others
    ∧ (forall d, d ∈ others -> d ∈ [1; 12; 9; 5] ∧ Some d ∉ Potion.wrong_operations 3 4)
    ∧ ((3 <= length priority)%nat -> others = [])
    ∧ ((length priority <= 3)%nat ->
       forall d, d ∈ [1; 12; 9; 5] -> Some d ∈ Potion.wrong_operations 3 4 ->
         d ∈ select_final (Potion.wrong_operations 3 4) [1; 12; 9; 5]).
Proof. exact (selection_prefers_wrong_operations (Potion.wrong_operations 3 4) [1; 12; 9; 5]). Defined.

(** Three candidates are always acceptable when the correct value is not
    negative and the ceiling leaves room for five more. *)
Lemma three_acceptable (correct : Z) (lim : limit) (pool : gset Z) :
  0 <= correct -> le_limit (correct + 5) lim ->
  (3 <= size (pool ∪ acceptable_candidates correct lim))%nat.
Proof.
  intros Hc Hlim.
  assert (forall offset, offset ∈ [2; 3; 5] ->
            correct + offset ∈ acceptable_candidates correct lim) as Hin.
  { intros offset Hoffset. unfold acceptable_candidates.
    apply elem_of_list_to_set, list_elem_of_filter. split.
    - unfold acceptable.
      assert (0 < offset <= 5) as Hrange.
      { repeat (apply elem_of_cons in Hoffset as [->|Hoffset]; [lia|]).
        by apply elem_of_nil in Hoffset. }
      split; [lia|]. split; [lia|].
      destruct lim as [n|]; simpl in *; lia.
    - apply list_elem_of_fmap. exists offset. split; [done|].
      unfold offsets.
      repeat (apply elem_of_cons in Hoffset as [->|Hoffset];
              [repeat first [apply list_elem_of_here | apply list_elem_of_further]|]).
      by apply elem_of_nil in Hoffset. }
  assert (list_to_set [correct + 2; correct + 3; correct + 5]
          ⊆ pool ∪ acceptable_candidates correct lim) as Hsub.
  { intros d Hd. apply elem_of_list_to_set in Hd. apply elem_of_union_r.
    repeat (apply elem_of_cons in Hd as [->|Hd];
            [apply Hin; repeat first [apply list_elem_of_here | apply list_elem_of_further]|]).
    by apply elem_of_nil in Hd. }
  apply subseteq_size in Hsub.
  rewrite size_list_to_set in Hsub; [done|].
  repeat (apply NoDup_cons; split;
          [rewrite ?elem_of_cons, elem_of_nil; lia|]).
  apply NoDup_nil_2.
Qed.

Lemma fair_draws_reach (rnd : list nat) (offset : Z) :
  (forall k, (k < 7)%nat -> exists i, i ∈ rnd ∧ (i `mod` 7 = k)%nat) ->
  offset ∈ offsets -> exists i, i ∈ rnd ∧ random_choice i offsets = offset.
Proof.
  intros Hfair Hoffset.
  apply list_elem_of_lookup_1 in Hoffset as [k Hk].
  assert (k < 7)%nat as Hlt by (by apply lookup_lt_Some in Hk).
  destruct (Hfair k Hlt) as (i & Hi & Hmod).
  exists i. split; [done|].
  unfold random_choice. change (length offsets) with 7%nat.
  rewrite Hmod. by apply list_lookup_total_correct.
Qed.

Lemma backfill_ends_with_room (rnd : list nat) (correct : Z) (lim : limit) (pool : gset Z) :
  0 <= correct -> le_limit (correct + 5) lim ->
  (forall k, (k < 7)%nat -> exists i, i ∈ rnd ∧ (i `mod` 7 = k)%nat) ->
  exists pool', backfill rnd correct lim pool = Returns pool'.
Proof.
  intros Hc Hlim Hfair. apply backfill_ends; [by apply three_acceptable|].
  intros offset Hoffset _. right. by apply fair_draws_reach.
Qed.

(** X8. When the ceiling of the grade leaves room for the correct value
    plus five (always so for an infinite ceiling) and each of the seven
    offsets is drawn at least once, the backfill loop ends: neither
    synthesizer is left in the loop. *)
Theorem synthesizer_returns_with_room
    (w : world) (text answer : string) (g : Z) (correct : Z) (rest : list Z) :
  extract_numbers answer = correct :: rest ->
  le_limit (correct + 5) (grade_limit g) ->
  (forall k, (k < 7)%nat -> exists i, i ∈ draws w ∧ (i `mod` 7 = k)%nat) ->
  Server.generate_smart_distractors w text answer g ≠ Spinning
  ∧ Potion.generate_smart_distractors w text answer g ≠ Spinning.
Proof.
  intros Hanswer Hlim Hfair.
  assert (0 <= correct) as Hc.
  { apply (extracted_nonneg answer). rewrite Hanswer. by left. }
  split.
  - unfold Server.generate_smart_distractors, Server.final_distractors.
    rewrite Hanswer.
    destruct (classified text (extract_numbers text)) as [operation|]; [|done].
    destruct (backfill_ends_with_room (draws w) correct (grade_limit g)
                (remove_invalid correct (grade_limit g)
                   (Server.candidate_pool operation (extract_numbers text) correct))
                Hc Hlim Hfair) as [pool' ->].
    done.
  - unfold Potion.generate_smart_distractors, Potion.final_distractors.
    rewrite Hanswer.
    destruct (classified text (extract_numbers text)) as [operation|]; [|done].
    destruct (backfill_ends_with_room (draws w) correct (grade_limit g)
                (remove_invalid correct (grade_limit g)
                   (Potion.candidate_pool operation (extract_numbers text) correct))
                Hc Hlim Hfair) as [pool' ->].
    done.
Qed.

Lemma classified_ok (text : string) (numbers : list Z) :
  exists operation, classified text numbers = Ok operation.
Proof.
  unfold classified.
  destruct (classifier_never_raises text numbers) as [[value operation] ->].
  by exists operation.
Qed.

Lemma server_none_iff (w : world) (text answer : string) (g : Z) :
  Server.generate_smart_distractors w text answer g = Returns None
  <-> extract_numbers answer = [].
Proof.
  unfold Server.generate_smart_distractors, Server.final_distractors.
  destruct (extract_numbers answer) as [|correct rest]; [done|].
  destruct (classified_ok text (extract_numbers text)) as [operation ->].
  by destruct (backfill _ _ _ _).
Qed.

Lemma potion_none_iff (w : world) (text answer : string) (g : Z) :
  Potion.generate_smart_distractors w text answer g = Returns None
  <-> extract_numbers answer = [].
Proof.
  unfold Potion.generate_smart_distractors, Potion.final_distractors.
  destruct (extract_numbers answer) as [|correct rest]; [done|].
  destruct (classified_ok text (extract_numbers text)) as [operation ->].
  by destruct (backfill _ _ _ _).
Qed.

(** X9. The synthesizers return the failure value [None] exactly when the
    answer holds no number; with a number in the answer, a call that
    returns gives choices. *)
Theorem synthesis_fails_only_without_number
    (w : world) (text answer : string) (g : Z) :
  (Server.generate_smart_distractors w text answer g = Returns None
   <-> extract_numbers answer = [])
  ∧ (Potion.generate_smart_distractors w text answer g = Returns None
     <-> extract_numbers answer = []).
Proof. split; [apply server_none_iff | apply potion_none_iff]. Qed.

Lemma synthesizer_returns_with_room_witness :
  Server.generate_smart_distractors fair_world "Add 3 and 4 potions" "7 potions" 1 ≠ Spinning
  ∧ Potion.generate_smart_distractors fair_world "Add 3 and 4 potions" "7 potions" 1 ≠ Spinning.
Proof.
  apply (synthesizer_returns_with_room fair_world "Add 3 and 4 potions" "7 potions" 1 7 []).
  - reflexivity.
  - change (grade_limit 1) with (Finite 20). simpl. lia.
  - intros k Hk. exists k. split.
    + change (draws fair_world) with (seq 0 7). apply elem_of_seq. lia.
    + by apply Nat.mod_small.
Defined.

(** ** The entry point of the single-question service *)





(** ** Cleaning a choice *)

Lemma strip_fixed_no_leading_space (s : string) : strip s = s -> no_leading_space s.
Proof.
  intros <-. apply rstrip_no_leading_space, lstrip_no_leading_space.
Qed.

Lemma strip_fixed_rstrip (s : string) : strip s = s -> rstrip s = s.
Proof.
  intros Hs. pose proof (strip_fixed_no_leading_space s Hs) as Hlead.
  unfold strip in Hs. by rewrite (lstrip_fixed s Hlead) in Hs.
Qed.

Lemma rstrip_cons (c : ascii) (s : string) :
  s ≠ "" -> rstrip s = s -> rstrip (String c s) = String c s.
Proof. intros Hne Hs. cbn [rstrip]. rewrite Hs. by destruct s. Qed.

Lemma strip_cons (c : ascii) (s : string) :
  is_space c = false -> s ≠ "" -> rstrip s = s -> strip (String c s) = String c s.
Proof.
  intros Hc Hne Hs. unfold strip. cbn [lstrip]. rewrite Hc. by apply rstrip_cons.
Qed.

Lemma rstrip_tail (c : ascii) (s : string) :
  s ≠ "" -> rstrip (String c s) = String c s -> rstrip s = s.
Proof.
  intros Hne. cbn [rstrip].
  destruct (rstrip s) as [|c' r] eqn:Hr.
  - destruct (is_space c); intros [=]. by destruct Hne.
  - by intros [= <-].
Qed.

Lemma label_letter_not_space (c : ascii) : is_label_letter c = true -> is_space c = false.
Proof.
  unfold is_label_letter, is_space, in_range.
  rewrite andb_true_iff, !N.leb_le. intros [? ?].
  repeat (apply orb_false_iff; split); rewrite ?andb_false_iff, ?N.leb_gt, ?N.eqb_neq; lia.
Qed.

Lemma label_mark_not_space (c : ascii) : is_label_mark c = true -> is_space c = false.
Proof.
  unfold is_label_mark, is_space, in_range.
  rewrite orb_true_iff, !N.eqb_eq. intros Hc.
  repeat (apply orb_false_iff; split); rewrite ?andb_false_iff, ?N.leb_gt, ?N.eqb_neq; lia.
Qed.

Lemma drop_label_none (s : string) : no_label_start s -> drop_label s = None.
Proof. destruct s as [|c s]; simpl; [done|]. by intros ->. Qed.

(** A stripped text that does not begin with A to D is left as it is. *)
Lemma clean_fixed (s : string) :
  strip s = s -> no_label_start s -> clean_choice_text s = s.
Proof.
  intros Hs Hstart. unfold clean_choice_text, drop_prefixes.
  by rewrite Hs, (drop_label_none s Hstart).
Qed.

Lemma drop_label_marked (label mark : ascii) (s : string) :
  is_label_letter label = true -> is_label_mark mark = true -> strip s = s ->
  drop_label (String label (String mark (String " " s))) = Some s.
Proof.
  intros Hlabel Hmark Hs. cbn [drop_label]. rewrite Hlabel, Hmark.
  cbn [lstrip]. change (is_space " ") with true. cbn iota.
  by rewrite (lstrip_fixed s (strip_fixed_no_leading_space s Hs)).
Qed.

(** X11. [clean_choice_text] removes one or two labels. For a text that
    is stripped, not empty and does not begin with one of the letters A
    to D: the text itself, the text after "L. " or "L: " and the text
    after two such labels are all cleaned to the text. *)
Theorem clean_removes_labels (s : string) (l1 m1 l2 m2 : ascii) :
  strip s = s -> s ≠ "" -> no_label_start s ->
  is_label_letter l1 = true -> is_label_mark m1 = true ->
  is_label_letter l2 = true -> is_label_mark m2 = true ->
  clean_choice_text s = s
  ∧ clean_choice_text (String l1 (String m1 (String " " s))) = s
  ∧ clean_choice_text
      (String l1 (String m1 (String " " (String l2 (String m2 (String " " s)))))) = s.
Proof.
  intros Hs Hne Hstart Hl1 Hm1 Hl2 Hm2.
  pose proof (strip_fixed_rstrip s Hs) as Hr.
  assert (forall l m t, is_label_letter l = true -> is_label_mark m = true ->
            t ≠ "" -> rstrip t = t ->
            strip (String l (String m (String " " t))) = String l (String m (String " " t)))
    as Hstrip.
  { intros l m t Hl Hm Ht Hrt. apply strip_cons; [by apply label_letter_not_space|done|].
    apply rstrip_cons; [done|]. by apply rstrip_cons. }
  split; [by apply clean_fixed|]. split.
  - unfold clean_choice_text, drop_prefixes.
    rewrite (Hstrip l1 m1 s) by done.
    rewrite (drop_label_marked l1 m1 s) by done.
    by rewrite (drop_label_none s Hstart).
  - set (inner := String l2 (String m2 (String " " s))).
    assert (strip inner = inner) as Hinner by (by apply Hstrip).
    unfold clean_choice_text, drop_prefixes.
    rewrite (Hstrip l1 m1 inner) by (done || by apply strip_fixed_rstrip).
    rewrite (drop_label_marked l1 m1 inner) by done.
    unfold inner. rewrite (drop_label_marked l2 m2 s) by done.
    done.
Qed.

Lemma clean_removes_labels_witness :
  clean_choice_text "12 drops" = "12 drops"
  ∧ clean_choice_text "A. 12 drops" = "12 drops"
  ∧ clean_choice_text "A. B: 12 drops" = "12 drops".
Proof.
  apply (clean_removes_labels "12 drops" "A" "." "B" ":"); done.
Defined.

(** X12. The pattern has no word boundary after the letter: a stripped
    text that begins with a capital A to D followed by a character that is
    no label letter, no mark and no white space loses its first letter. *)
Theorem clean_eats_first_capital (c c' : ascii) (rest : string) :
  strip (String c (String c' rest)) = String c (String c' rest) ->
  is_label_letter c = true ->
  is_label_letter c' = false -> is_label_mark c' = false -> is_space c' = false ->
  clean_choice_text (String c (String c' rest)) = String c' rest.
Proof.
  intros Hs Hc Hletter Hmark Hspace.
  assert (strip (String c' rest) = String c' rest) as Hrest.
  { unfold strip. cbn [lstrip]. rewrite Hspace.
    apply (rstrip_tail c); [done|]. by apply strip_fixed_rstrip. }
  unfold clean_choice_text, drop_prefixes. rewrite Hs.
  cbn [drop_label]. rewrite Hc, Hmark. cbn [lstrip]. rewrite Hspace.
  cbn [default drop_label]. rewrite Hletter. exact Hrest.
Qed.

Lemma clean_eats_first_capital_witness :
  clean_choice_text "Dragon scales" = "ragon scales".
Proof.
  apply (clean_eats_first_capital "D" "r" "agon scales"); reflexivity.
Defined.

(** ** More on the batch assembly *)





(** The steps of a call of [improve_question] that returns. *)
Lemma improve_question_returns
    (md5 : string -> string) (w : world) (now : string) (seen seen' : gset string)
    (question_elem : question_element) (r : option new_question * string) :
  improve_question md5 w now seen question_elem = Returns (seen', r) ->
  (exists e, read_question question_elem = Raise e
             ∧ (seen' = seen) ∧ r = (None, "Processing error: " +:+ exn_message e))
  ∨ (exists q e, read_question question_elem = Ok q
                 ∧ create_question_hash md5 (question_text q) (choices q) = Raise e
                 ∧ (seen' = seen) ∧ r = (None, "Processing error: " +:+ exn_message e))
  ∨ (exists q h, read_question question_elem = Ok q
                 ∧ create_question_hash md5 (question_text q) (choices q) = Ok h
                 ∧ (h ∈ seen) ∧ (seen' = seen) ∧ r = (None, "Duplicate question"))
  ∨ (exists q h, read_question question_elem = Ok q
                 ∧ create_question_hash md5 (question_text q) (choices q) = Ok h
                 ∧ (h ∉ seen) ∧ (seen' = {[h]} ∪ seen)
                 ∧ ((exists reason, r = (None, reason))
                    ∨ exists chs elem,
                        validation_checks q = Ok None
                        ∧ improved_choices w q = Returns chs
                        ∧ assemble now q chs = Ok elem
                        ∧ r = (Some elem, "Successfully improved to production quality"))).
Proof.
  unfold improve_question, processing_error.
  destruct (read_question question_elem) as [q|e]; [|intros [= <- <-]; left; by exists e].
  destruct (create_question_hash md5 (question_text q) (choices q)) as [h|e] eqn:Hhash;
    [|intros [= <- <-]; right; left; by exists q, e].
  case_decide as Hseen; [intros [= <- <-]; right; right; left; by exists q, h|].
  intros Hrun. right; right; right. exists q, h.
  split; [done|]. split; [done|]. split; [done|].
  destruct (validation_checks q) as [[reason|]|e] eqn:Hvalid.
  - injection Hrun as <- <-. split; [done|]. left. by eexists.
  - destruct (improved_choices w q) as [chs|] eqn:Hchs; [|done].
    destruct (assemble now q chs) as [elem|e] eqn:Hassemble; injection Hrun as <- <-.
    + split; [done|]. right. by exists chs, elem.
    + split; [done|]. left. by eexists.
  - injection Hrun as <- <-. split; [done|]. left. by eexists.
Qed.



Lemma label_choices_too_many (cleaned : list string) (correct_answer : string) :
  forall (i : nat) (acc : list (string * string)) (key : option string),
    (i <= 4)%nat -> (4 < i + length cleaned)%nat ->
    label_choices i cleaned (Some correct_answer) acc key
    = Raise (IndexError "list index out of range").
Proof.
  induction cleaned as [|c cleaned IH]; intros i acc key Hi Hlen.
  - simpl in Hlen. lia.
  - cbn [label_choices]. destruct (decide (i = 4%nat)) as [->|Hne]; [done|].
    destruct (lookup_lt_is_Some_2 choice_labels i ltac:(simpl; lia)) as [label Hlabel].
    unfold py_index at 1. rewrite Hlabel. cbn [mbind result_bind clean_choice_text_on].
    apply IH; simpl in Hlen; lia.
Qed.

Lemma assemble_fields (now : string) (q : question) (chs : list (option string))
    (elem : new_question) :
  assemble now q chs = Ok elem ->
  new_id elem = question_id q
  ∧ stem elem = question_text q
  ∧ new_explanation elem = explanation q
  ∧ new_grade elem = str_of_Z (grade q)
  ∧ new_domain elem = domain q
  ∧ new_standard elem = standard q
  ∧ new_status elem = "completed".
Proof.
  unfold assemble.
  destruct (comprehension _ _) as [cleaned|]; simpl; [|done].
  destruct (label_choices _ _ _ _ _) as [[elems [key|]]|]; simpl; [| |done].
  - destruct (clean_choice_text_on _); simpl; [|done]. by intros [= <-].
  - destruct (clean_choice_text_on _); simpl; [|done].
    destruct (set_first_text _ _); simpl; [|done]. by intros [= <-].
Qed.

Lemma assemble_inv (now : string) (q : question) (chs : list (option string))
    (elem : new_question) :
  assemble now q chs = Ok elem ->
  exists (texts : list string) (answer : string),
    chs = Some <$> texts
    ∧ correct_answer q = Some answer
    ∧ (1 <= length texts <= 4)%nat
    ∧ answer_key_reconciled (clean_choice_text <$> texts) (clean_choice_text answer) elem.
Proof.
  intros Hrun.
  assert (exists texts, chs = Some <$> texts) as [texts ->].
  { unfold assemble in Hrun.
    destruct (comprehension clean_choice_text_on chs) as [cleaned|] eqn:Hclean; [|done].
    destruct (clean_texts_inv _ _ Hclean) as (texts & -> & _). by exists texts. }
  assert (exists answer, correct_answer q = Some answer) as [answer Hanswer].
  { destruct (correct_answer q) as [answer|] eqn:Hanswer; [by exists answer|].
    exfalso. revert Hrun. unfold assemble. rewrite clean_texts, Hanswer.
    by destruct texts. }
  exists texts, answer. split; [done|]. split; [done|].
  destruct (decide (1 <= length texts <= 4)%nat) as [Hlen|Hlen].
  - split; [done|].
    destruct (assemble_ok now q texts answer Hanswer Hlen) as (elem' & Hrun' & Hkey).
    rewrite Hrun in Hrun'. by injection Hrun' as <-.
  - exfalso. revert Hrun. unfold assemble. rewrite clean_texts, Hanswer.
    destruct texts as [|c texts]; [done|].
    cbn [mbind result_bind].
    rewrite label_choices_too_many; [done | lia |].
    rewrite length_fmap. simpl in *. lia.
Qed.

Lemma fst_zip_take {A B} (l : list A) (k : list B) :
  (zip l k).*1 = take (length k) l.
Proof.
  revert k. induction l as [|x l IH]; intros [|y k]; simpl; try done.
  by rewrite IH.
Qed.

(** What the reconciliation gives: the key is a label, the labels run
    from A in order, and the choice under the key holds the answer
    text. *)
Lemma reconciled_key_in_choices (cleaned : list string) (answer : string)
    (elem : new_question) :
  (1 <= length cleaned <= 4)%nat ->
  answer_key_reconciled cleaned answer elem ->
  length (new_choices elem) = length cleaned
  ∧ (new_choices elem).*1 = take (length cleaned) choice_labels
  ∧ (answer_key elem, answer_text elem) ∈ new_choices elem.
Proof.
  intros Hlen (Htext & Hmatch & Hforce). rewrite Htext.
  destruct (decide (answer ∈ cleaned)) as [Hin|Hnot].
  - apply list_elem_of_lookup_1 in Hin as [j0 Hj0].
    destruct (Hmatch (ex_intro _ j0 Hj0)) as (j & label & Hj & _ & Hlabel & -> & ->).
    split; [|split].
    + rewrite length_zip_with. change (length choice_labels) with 4%nat. lia.
    + apply fst_zip_take.
    + apply (list_elem_of_lookup_2 _ j).
      apply lookup_zip_with_Some. by exists label, answer.
  - destruct (Hforce Hnot) as [-> ->].
    destruct cleaned as [|c cleaned]; [simpl in Hlen; lia|].
    assert (<[0%nat:=("A", answer)]> (zip choice_labels (c :: cleaned))
            = ("A", answer) :: zip ["B"; "C"; "D"] cleaned) as Hhead by reflexivity.
    split; [|split].
    + rewrite length_insert, length_zip_with.
      change (length choice_labels) with 4%nat. lia.
    + rewrite Hhead, fmap_cons, fst_zip_take. reflexivity.
    + rewrite Hhead. by left.
Qed.

(** The steps of a call of [improve_question] that returns an element. *)
Lemma improve_question_accepts
    (md5 : string -> string) (w : world) (now : string) (seen seen' : gset string)
    (question_elem : question_element) (elem : new_question) (reason : string) :
  improve_question md5 w now seen question_elem = Returns (seen', (Some elem, reason)) ->
  exists (q : question) (h : string) (chs : list (option string)),
    read_question question_elem = Ok q
    ∧ create_question_hash md5 (question_text q) (choices q) = Ok h
    ∧ (h ∉ seen) ∧ (seen' = {[h]} ∪ seen)
    ∧ validation_checks q = Ok None
    ∧ improved_choices w q = Returns chs
    ∧ assemble now q chs = Ok elem
    ∧ reason = "Successfully improved to production quality".
Proof.
  intros Hrun.
  destruct (improve_question_returns _ _ _ _ _ _ _ Hrun)
    as [(e & _ & _ & [=])
       |[(q & e & _ & _ & _ & [=])
        |[(q & h & _ & _ & _ & _ & [=])
         |(q & h & Hread & Hhash & Hfresh & -> & [[? [=]]|(chs & elem' & ? & ? & ? & [= <- <-])])]]].
  by exists q, h, chs.
Qed.

(** X14. Every element [improve_question] returns is well formed: it has
    one to four choices labelled A, B, C, D in order, its answer key is
    the label of a choice whose text is the answer text, the answer text
    is the cleaned correct answer, and the identifier, stem and
    explanation are those of the question. *)
Theorem accepted_element_well_formed
    (md5 : string -> string) (w : world) (now : string) (seen seen' : gset string)
    (question_elem : question_element) (elem : new_question) (reason : string) :
  improve_question md5 w now seen question_elem = Returns (seen', (Some elem, reason)) ->
  exists (q : question) (answer : string),
    read_question question_elem = Ok q
    ∧ correct_answer q = Some answer
    ∧ reason = "Successfully improved to production quality"
    ∧ (1 <= length (new_choices elem) <= 4)%nat
    ∧ (new_choices elem).*1 = take (length (new_choices elem)) choice_labels
    ∧ (answer_key elem, answer_text elem) ∈ new_choices elem
    ∧ answer_text elem = clean_choice_text answer
    ∧ new_id elem = question_id q
    ∧ stem elem = question_text q
    ∧ new_explanation elem = explanation q.
Proof.
  intros Hrun.
  destruct (improve_question_accepts _ _ _ _ _ _ _ _ Hrun)
    as (q & h & chs & Hread & _ & _ & _ & _ & _ & Hassemble & ->).
  destruct (assemble_inv _ _ _ _ Hassemble) as (texts & answer & -> & Hanswer & Hlen & Hkey).
  destruct (assemble_fields _ _ _ _ Hassemble) as (Hid & Hstem & Hexpl & _).
  assert (1 <= length (clean_choice_text <$> texts) <= 4)%nat as Hlen'
    by (by rewrite length_fmap).
  destruct (reconciled_key_in_choices _ _ _ Hlen' Hkey) as (Hsize & Hlabels & Hin).
  exists q, answer.
  split; [done|]. split; [done|]. split; [done|].
  rewrite Hsize. split; [done|]. split; [done|]. split; [done|].
  split; [apply Hkey|]. done.
Qed.

Lemma accepted_element_well_formed_witness :
  exists elem,
    (1 <= length (new_choices elem) <= 4)%nat
    ∧ (answer_key elem, answer_text elem) ∈ new_choices elem
    ∧ stem elem = Some "Mix 3 drops".
Proof.
  destruct (improve_question (fun s => s) plain_world "now" ∅ (written sample_question))
    as [[seen' [[elem|] reason]]|] eqn:Hrun;
    [|vm_compute in Hrun; discriminate Hrun..].
  exists elem.
  destruct (accepted_element_well_formed _ _ _ _ _ _ _ _ Hrun)
    as (q & answer & Hread & _ & _ & Hlen & _ & Hin & _ & _ & Hstem & _).
  injection Hread as <-.
  done.
Defined.

Lemma valid_domains_grade (g : Z) (d : string) :
  d ∈ default [] (valid_domains !! g) -> 1 <= g <= 6.
Proof.
  intros Hin. destruct (decide (1 <= g <= 6)) as [|Hout]; [done|]. exfalso.
  unfold valid_domains in Hin.
  rewrite !lookup_insert_ne in Hin by lia.
  rewrite lookup_singleton_ne in Hin by lia.
  by apply elem_of_nil in Hin.
Qed.

(** What the standard check lets through. *)
Lemma standard_alignment_passes (q : question) :
  standard_alignment q = None ->
  exists (domain_text standard_text part0 : string) (rest : list string),
    domain q = Some domain_text
    ∧ domain_text ∈ default [] (valid_domains !! grade q)
    ∧ standard q = Some standard_text
    ∧ split_on "." standard_text = part0 :: domain_text :: rest
    ∧ py_int part0 = Ok (grade q).
Proof.
  unfold standard_alignment, standard_alignment_body. intros Halign.
  destruct (standard q) as [standard_text|]; [|done].
  cbn [split_on_dot mbind result_bind] in Halign.
  destruct (split_on "." standard_text) as [|part0 [|part1 rest]] eqn:Hsplit;
    [done | | ].
  { cbn in Halign. by destruct (py_int part0). }
  cbn in Halign.
  destruct (py_int part0) as [standard_grade|] eqn:Hint; [|done].
  cbn in Halign.
  case_decide as Hmismatch; [done|].
  case_decide as Hdomain; [done|].
  assert (standard_grade = grade q ∧ Some part1 = domain q) as [-> Hpart1].
  { split.
    - destruct (decide (standard_grade = grade q)); [done|]. destruct Hmismatch; by left.
    - destruct (decide (Some part1 = domain q)); [done|]. destruct Hmismatch; by right. }
  exists part1, standard_text, part0, rest.
  split; [done|]. split; [|done].
  rewrite <-Hpart1 in Hdomain.
  apply list_elem_of_fmap in Hdomain as (d & [= ->] & Hd). done.
Qed.

(** X15. [improve_question] returns an element only for a question that
    was not seen before and passes every check: the grade is one of 1 to
    6, the standard starts with the grade and the domain, the domain is
    one of the grade's, no number of the text exceeds the ceiling of the
    grade, the text has at most 30 words and the math validator accepts
    the answer. The hash of the question is then added to the set. *)
Theorem accepted_question_passed_checks
    (md5 : string -> string) (w : world) (now : string) (seen seen' : gset string)
    (question_elem : question_element) (elem : new_question) (reason : string) :
  improve_question md5 w now seen question_elem = Returns (seen', (Some elem, reason)) ->
  exists (q : question) (question_hash text domain_text standard_text : string),
    read_question question_elem = Ok q
    ∧ create_question_hash md5 (question_text q) (choices q) = Ok question_hash
    ∧ (question_hash ∉ seen)
    ∧ (seen' = {[question_hash]} ∪ seen)
    ∧ (1 <= grade q <= 6)
    ∧ domain q = Some domain_text
    ∧ domain_text ∈ default [] (valid_domains !! grade q)
    ∧ standard q = Some standard_text
    ∧ (exists part0 rest,
         split_on "." standard_text = part0 :: domain_text :: rest
         ∧ py_int part0 = Ok (grade q))
    ∧ question_text q = Some text
    ∧ Forall (fun n => le_limit n (grade_limit (grade q))) (extract_numbers text)
    ∧ (count_words text <= 30)%nat
    ∧ (validate_math_comprehensive (question_text q) (choices q) (correct_answer q)).1 = true.
Proof.
  intros Hrun.
  destruct (improve_question_accepts _ _ _ _ _ _ _ _ Hrun)
    as (q & h & chs & Hread & Hhash & Hfresh & -> & Hvalid & _ & _ & _).
  destruct (question_hash_inv _ _ _ _ Hhash) as (text & texts & Htext & _).
  unfold validation_checks in Hvalid.
  destruct (standard_alignment q) eqn:Halign; [done|].
  destruct (standard_alignment_passes q Halign)
    as (domain_text & standard_text & part0 & rest & Hdomain & Hin & Hstandard & Hsplit & Hint).
  rewrite Htext in Hvalid. cbn [re_on mbind result_bind] in Hvalid.
  destruct (exceeds_limit _ _) eqn:Hexceeds; [done|].
  case_decide as Hwords; [done|].
  rewrite <-Htext in Hvalid.
  destruct (validate_math_comprehensive _ _ _) as [[|] math_reason] eqn:Hmath; [|done].
  exists q, h, text, domain_text, standard_text.
  split; [done|]. split; [done|]. split; [done|]. split; [done|].
  split; [by eapply valid_domains_grade|]. split; [done|]. split; [done|].
  split; [done|]. split; [by exists part0, rest|]. split; [done|].
  split; [|split; [lia | by rewrite Hmath]].
  apply Forall_forall. intros n Hn.
  unfold exceeds_limit in Hexceeds.
  destruct (decide (le_limit n (grade_limit (grade q)))) as [|Hbad]; [done|].
  assert (existsb (fun num => bool_decide (¬ le_limit num (grade_limit (grade q))))
            (extract_numbers text) = true) as Htrue.
  { apply existsb_exists. exists n. split; [by apply list_elem_of_In|].
    by apply bool_decide_eq_true. }
  congruence.
Qed.

Lemma accepted_question_passed_checks_witness :
  exists q : question,
    read_question (written sample_question) = Ok q
    ∧ 1 <= grade q <= 6
    ∧ question_text q = Some "Mix 3 drops".
Proof.
  destruct (improve_question (fun s => s) plain_world "now" ∅ (written sample_question))
    as [[seen' [[elem|] reason]]|] eqn:Hrun;
    [|vm_compute in Hrun; discriminate Hrun..].
  destruct (accepted_question_passed_checks _ _ _ _ _ _ _ _ Hrun)
    as (q & h & text & d & s & Hread & _ & _ & _ & Hgrade & _ & _ & _ & _ & Htext & _).
  exists q. split; [done|]. split; [done|].
  injection Hread as <-. done.
Defined.

(** ** Reading back a written integer *)

Lemma digit_not_space (c : ascii) : is_digit c = true -> is_space c = false.
Proof.
  unfold is_digit, is_space, in_range.
  rewrite andb_true_iff, !N.leb_le. intros [? ?].
  repeat (apply orb_false_iff; split); rewrite ?andb_false_iff, ?N.leb_gt, ?N.eqb_neq; lia.
Qed.

Lemma rstrip_digits (s : string) : all_chars is_digit s = true -> rstrip s = s.
Proof.
  induction s as [|c s IH]; [done|]. simpl.
  rewrite andb_true_iff. intros [Hc Hs]. rewrite (IH Hs).
  destruct s; [by rewrite (digit_not_space c Hc) | done].
Qed.

Lemma strip_digits (s : string) : all_chars is_digit s = true -> strip s = s.
Proof.
  intros Hs. unfold strip. rewrite lstrip_fixed; [by apply rstrip_digits|].
  destruct s as [|c s]; [done|]. simpl in *.
  apply andb_true_iff in Hs as [Hc _]. by apply digit_not_space.
Qed.

Lemma digits_and_underscores_digits (s : string) (after_digit : bool) :
  all_chars is_digit s = true -> s ≠ "" ∨ after_digit = true ->
  digits_and_underscores after_digit s = Some s.
Proof.
  revert after_digit. induction s as [|c s IH]; intros after_digit Hs Hne.
  - destruct Hne as [?| ->]; done.
  - simpl in Hs. apply andb_true_iff in Hs as [Hc Hs].
    cbn [digits_and_underscores]. rewrite Hc, (IH true Hs) by (by right). done.
Qed.

Lemma py_int_digits (s : string) :
  all_chars is_digit s = true -> s ≠ "" -> py_int s = Ok (int_of_digits s).
Proof.
  intros Hs Hne. unfold py_int. rewrite (strip_digits s Hs).
  destruct s as [|c s]; [done|].
  assert (is_digit c = true) as Hc by (simpl in Hs; by apply andb_true_iff in Hs as [? _]).
  assert (c ≠ "+"%char ∧ c ≠ "-"%char) as [Hplus Hminus].
  { split; intros ->; discriminate Hc. }
  assert (match String c s with
          | String "+"%char r => (false, r)
          | String "-"%char r => (true, r)
          | _ => (false, String c s)
          end = (false, String c s)) as ->.
  { destruct c as [[] [] [] [] [] [] [] []]; try reflexivity; by (destruct Hplus || destruct Hminus). }
  by rewrite (digits_and_underscores_digits _ false Hs) by (by left).
Qed.

Lemma str_of_neg (p : positive) :
  str_of_Z (Z.neg p) = String "-" (NilEmpty.string_of_uint (Pos.to_uint p)).
Proof.
  unfold str_of_Z. simpl. unfold NilZero.string_of_uint.
  pose proof (DecimalPos.Unsigned.to_uint_nonnil p).
  by destruct (Pos.to_uint p).
Qed.

Lemma py_int_str_of_Z (z : Z) : py_int (str_of_Z z) = Ok z.
Proof.
  destruct z as [|p|p].
  - reflexivity.
  - destruct (str_of_Z_digits (Z.pos p) ltac:(lia)) as (Hdigits & Hne & Hint).
    by rewrite py_int_digits, Hint.
  - rewrite str_of_neg.
    set (ds := NilEmpty.string_of_uint (Pos.to_uint p)).
    assert (all_chars is_digit ds = true ∧ ds ≠ "" ∧ int_of_digits ds = Z.pos p)
      as (Hdigits & Hne & Hint).
    { pose proof (str_of_Z_digits (Z.pos p) ltac:(lia)) as H.
      by rewrite str_of_pos in H. }
    unfold py_int.
    assert (strip (String "-" ds) = String "-" ds) as ->.
    { apply strip_cons; [done | done | by apply rstrip_digits]. }
    cbn iota beta.
    rewrite (digits_and_underscores_digits _ false Hdigits) by (by left).
    by rewrite Hint.
Qed.

(** An element that holds every field of a question is read as that
    question. *)
Lemma read_written (q : question) : read_question (written q) = Ok q.
Proof.
  unfold read_question, written. simpl. rewrite py_int_str_of_Z. by destruct q.
Qed.

(** X16. The [grade] attribute of an element that [improve_question]
    returns is the decimal text of the grade read from the question, a
    grade from 1 to 6, and [int], which the batch driver applies to that
    attribute when it counts and sorts the elements, reads the same
    grade back from it without raising. *)
Theorem grade_attribute_read_back
    (md5 : string -> string) (w : world) (now : string) (seen seen' : gset string)
    (question_elem : question_element) (elem : new_question) (reason : string) :
  improve_question md5 w now seen question_elem = Returns (seen', (Some elem, reason)) ->
  exists q : question,
    read_question question_elem = Ok q
    ∧ new_grade elem = str_of_Z (grade q)
    ∧ py_int (new_grade elem) = Ok (grade q).
Proof.
  intros Hrun.
  destruct (improve_question_accepts _ _ _ _ _ _ _ _ Hrun)
    as (q & h & chs & Hread & _ & _ & _ & _ & _ & Hassemble & _).
  destruct (assemble_fields _ _ _ _ Hassemble) as (_ & _ & _ & Hgrade & _).
  exists q. split; [done|]. split; [done|].
  rewrite Hgrade. apply py_int_str_of_Z.
Qed.

Lemma grade_attribute_read_back_witness :
  exists elem : new_question,
    improve_question (fun s => s) plain_world "now" ∅ (written sample_question)
    = Returns ({["Mix 3 drops|A. 3 drops|B. 19 drops|C. 52 drops|D. 7 drops"]} ∪ ∅,
               (Some elem, "Successfully improved to production quality"))
    ∧ new_grade elem = "3"
    ∧ py_int (new_grade elem) = Ok 3.
Proof.
  destruct (improve_question (fun s => s) plain_world "now" ∅ (written sample_question))
    as [[seen' [[elem|] reason]]|] eqn:Hrun;
    [|vm_compute in Hrun; discriminate Hrun..].
  exists elem.
  destruct (grade_attribute_read_back _ _ _ _ _ _ _ _ Hrun) as (q & Hread & Hgrade & Hint).
  rewrite read_written in Hread. injection Hread as <-.
  split; [|done].
  vm_compute in Hrun. injection Hrun as <- <- <-. reflexivity.
Defined.
